(** * Resume analyzer: the RAG pipeline of [rag_pipeline.py]

    A shallow embedding of the pipeline module and of the library calls it
    makes, and of the Streamlit script [app.py] that drives it, followed by
    the properties of the pipeline and of the script that were checked
    against it.

    The module is orchestration code over third-party libraries.  The functions
    of [rag_pipeline.py] are embedded statement by statement.  The library code
    they call is not part of the repository; each library operation is embedded
    from the behaviour of the library version the imports select
    ([langchain.text_splitter], [langchain_openai], [langchain_community]),
    and every such definition says so in its comment.  The network services
    (PDF text extraction, embeddings, chat completion) stay parameters. *)

From Stdlib Require Import ZArith Lia Ascii String.
From stdpp Require Import base option list gmap strings sorting.

Local Open Scope Z_scope.

(** ** Python values *)

Module Py.

(** A Python [str] is a sequence of Unicode code points; [len] counts them. *)
Definition str := list N.

(** A Python [bytes] value. *)
Definition bytes := list Byte.byte.

(** The code points of an ASCII literal of the source. *)
Fixpoint lit (s : string) : str :=
  match s with
  | EmptyString => []
  | String a s' => N_of_ascii a :: lit s'
  end.
Arguments lit : simpl never.

(** [len] of a string or of a list. *)
Definition len {A} (s : list A) : Z := Z.of_nat (length s).

(** Line feed and space, the characters the separators are made of. *)
Definition LF : N := 10%N.
Definition SP : N := 32%N.

(** [str.isspace] on one code point: the characters [str.strip()] removes. *)
Definition isspace (c : N) : bool :=
  ((9 <=? c) && (c <=? 13) || (28 <=? c) && (c <=? 32)
   || (c =? 133) || (c =? 160) || (c =? 5760)
   || (8192 <=? c) && (c <=? 8202)
   || (c =? 8232) || (c =? 8233) || (c =? 8239) || (c =? 8287)
   || (c =? 12288))%N.

(** [s.lstrip()], [s.rstrip()], [s.strip()]. *)
Fixpoint lstrip (s : str) : str :=
  match s with
  | c :: s' => if isspace c then lstrip s' else s
  | [] => []
  end.

Definition rstrip (s : str) : str := rev (lstrip (rev s)).

Definition strip (s : str) : str := rstrip (lstrip s).

(** [sep.join(parts)]. *)
Fixpoint join (sep : str) (parts : list str) : str :=
  match parts with
  | [] => []
  | [p] => p
  | p :: rest => p ++ sep ++ join sep rest
  end.

(** [t.startswith(p)]. *)
Fixpoint startswith (p t : str) : bool :=
  match p, t with
  | [], _ => true
  | a :: p', b :: t' => bool_decide (a = b) && startswith p' t'
  | _ :: _, [] => false
  end.

(** [re.search(re.escape(p), t) is not None]: [p] occurs in [t]. *)
Fixpoint contains (p t : str) : bool :=
  startswith p t ||
  match t with
  | [] => false
  | _ :: t' => contains p t'
  end.

(** [re.split(re.escape(sep), text)] for a non-empty literal [sep]: the
    segments between the leftmost non-overlapping occurrences of [sep].
    [skip] counts the characters of a matched separator still to be passed,
    [cur] is the current segment, reversed. *)
Fixpoint re_split_from (sep : str) (skip : nat) (cur : str) (t : str)
  : list str :=
  match t with
  | [] => [rev cur]
  | c :: t' =>
      match skip with
      | S k => re_split_from sep k cur t'
      | O =>
          if startswith sep t
          then rev cur :: re_split_from sep (length sep - 1) [] t'
          else re_split_from sep O (c :: cur) t'
      end
  end.

Definition re_split (sep : str) (text : str) : list str :=
  re_split_from sep O [] text.

(** Scalar values: what a document's metadata dictionary holds. *)
Inductive scalar :=
  | SNone
  | SInt (n : Z)
  | SStr (s : str).

#[export] Instance scalar_eq_dec : EqDecision scalar.
Proof. solve_decision. Defined.

(** Exception classes the pipeline can meet.  [KeyboardInterrupt] and
    [SystemExit] derive from [BaseException] only; the others derive from
    [Exception]. *)
Inductive exc_class :=
  | NameError | AttributeError | KeyError | TypeError | ValueError
  | FileNotFoundError | OSError
  | ServiceError (name : string)
  | KeyboardInterrupt | SystemExit.

#[export] Instance exc_class_eq_dec : EqDecision exc_class.
Proof. solve_decision. Defined.

Definition is_Exception (c : exc_class) : bool :=
  match c with
  | KeyboardInterrupt | SystemExit => false
  | _ => true
  end.

(** An exception instance: its class and [str(e)]. *)
Record exn := Exn { exn_class : exc_class; exn_str : str }.

#[export] Instance exn_eq_dec : EqDecision exn.
Proof. solve_decision. Defined.

(** The outcome of evaluating Python code: a value or a raised exception. *)
Definition result (A : Type) : Type := exn + A.

End Py.

(** ** The text splitter

    [langchain.text_splitter.RecursiveCharacterTextSplitter], library code
    that is not under the repository: embedded from the library, with the
    defaults the constructor call of [load_and_chunk_pdf] leaves in place
    ([keep_separator=True], [is_separator_regex=False],
    [strip_whitespace=True], [add_start_index=False]).  The Python of each
    library function is quoted above its embedding, with ['] for the quote
    character. *)

Module TextSplitter.
Import Py.

Record config := Config {
  chunk_size : Z;
  chunk_overlap : Z;
  separators : list str
}.

(** [_split_text_with_regex(text, separator, keep_separator=True)]:
<<
    if separator:
        _splits = re.split(f'({separator})', text)
        splits = [_splits[i] + _splits[i + 1]
                  for i in range(1, len(_splits), 2)]
        if len(_splits) % 2 == 0:
            splits += _splits[-1:]
        splits = [_splits[0]] + splits
    else:
        splits = list(text)
    return [s for s in splits if s != '']
>>
    [re.split] with the separator in a group returns the segments with the
    separator between each two, an odd number of items: every piece but the
    first is the separator followed by a segment. *)
Definition split_text_with_regex (text : str) (separator : str) : list str :=
  let splits :=
    match separator with
    | [] => map (λ c, [c]) text
    | _ :: _ =>
        match re_split separator text with
        | [] => []
        | first :: others => first :: map (λ s, separator ++ s) others
        end
    end in
  filter (λ s, s ≠ []) splits.

(** [_join_docs(docs, separator)]:
<<
    text = separator.join(docs)
    if self._strip_whitespace:
        text = text.strip()
    return None if text == '' else text
>> *)
Definition join_docs (docs : list str) (separator : str) : option str :=
  let text := strip (join separator docs) in
  if decide (text = []) then None else Some text.

Section merge.
Context (cfg : config) (separator : str).

Definition separator_len : Z := len separator.

(** [_merge_splits(splits, separator)]:
<<
    separator_len = self._length_function(separator)
    docs = []
    current_doc = []
    total = 0
    for d in splits:
        _len = self._length_function(d)
        if (total + _len + (separator_len if len(current_doc) > 0 else 0)
                > self._chunk_size):
            if len(current_doc) > 0:
                doc = self._join_docs(current_doc, separator)
                if doc is not None:
                    docs.append(doc)
                while total > self._chunk_overlap or (
                    total + _len
                    + (separator_len if len(current_doc) > 0 else 0)
                    > self._chunk_size
                    and total > 0
                ):
                    total -= self._length_function(current_doc[0]) + (
                        separator_len if len(current_doc) > 1 else 0)
                    current_doc = current_doc[1:]
        current_doc.append(d)
        total += _len + (separator_len if len(current_doc) > 1 else 0)
    doc = self._join_docs(current_doc, separator)
    if doc is not None:
        docs.append(doc)
    return docs
>> *)

(** The guard of the inner [while] loop. *)
Definition must_pop (total _len : Z) (current_doc : list str) : bool :=
  (chunk_overlap cfg <? total)
  || ((chunk_size cfg <?
         total + _len + (if decide (0 < length current_doc)%nat
                         then separator_len else 0))
      && (0 <? total)).

(** The inner [while] loop: drop pieces from the front of [current_doc].
    On an empty [current_doc] the loop stops: [total] is then 0 and the
    guard is false. *)
Fixpoint pop_front (_len : Z) (current_doc : list str) (total : Z)
  : list str * Z :=
  match current_doc with
  | [] => ([], total)
  | d0 :: rest =>
      if must_pop total _len current_doc
      then pop_front _len rest
             (total - (len d0 + (if decide (1 < length current_doc)%nat
                                 then separator_len else 0)))
      else (current_doc, total)
  end.

(** The state of the [for] loop of [_merge_splits]. *)
Record merge_state := MergeState {
  docs : list str;
  current_doc : list str;
  total : Z
}.

(** One iteration of the [for d in splits] loop. *)
Definition merge_step (st : merge_state) (d : str) : merge_state :=
  let _len := len d in
  let st1 :=
    if chunk_size cfg <?
         total st + _len + (if decide (0 < length (current_doc st))%nat
                            then separator_len else 0)
    then
      match current_doc st with
      | [] => st
      | _ :: _ =>
          let docs1 :=
            match join_docs (current_doc st) separator with
            | Some doc => docs st ++ [doc]
            | None => docs st
            end in
          let '(cur, tot) := pop_front _len (current_doc st) (total st) in
          MergeState docs1 cur tot
      end
    else st in
  let cur := current_doc st1 ++ [d] in
  MergeState (docs st1) cur
    (total st1 + _len + (if decide (1 < length cur)%nat
                         then separator_len else 0)).

(** The whole of [_merge_splits(splits, separator)]. *)
Definition merge_splits (splits : list str) : list str :=
  let st := foldl merge_step (MergeState [] [] 0) splits in
  match join_docs (current_doc st) separator with
  | Some doc => docs st ++ [doc]
  | None => docs st
  end.
End merge.

Section split.
Context (cfg : config).

(** [_split_text(text, separators)]:
<<
    final_chunks = []
    separator = separators[-1]
    new_separators = []
    for i, _s in enumerate(separators):
        _separator = re.escape(_s)
        if _s == '':
            separator = _s
            break
        if re.search(_separator, text):
            separator = _s
            new_separators = separators[i + 1:]
            break
    _separator = re.escape(separator)
    splits = _split_text_with_regex(text, _separator, self._keep_separator)
    _good_splits = []
    _separator = '' if self._keep_separator else separator
    for s in splits:
        if self._length_function(s) < self._chunk_size:
            _good_splits.append(s)
        else:
            if _good_splits:
                merged_text = self._merge_splits(_good_splits, _separator)
                final_chunks.extend(merged_text)
                _good_splits = []
            if not new_separators:
                final_chunks.append(s)
            else:
                other_info = self._split_text(s, new_separators)
                final_chunks.extend(other_info)
    if _good_splits:
        merged_text = self._merge_splits(_good_splits, _separator)
        final_chunks.extend(merged_text)
    return final_chunks
>> *)

(** The [for s in splits] loop; [recurse] is the call
    [self._split_text(s, new_separators)], or [None] when [new_separators]
    is empty.  Since [keep_separator] is set, pieces are merged with the
    empty separator. *)
Fixpoint split_loop (recurse : option (str → list str))
    (final_chunks : list str) (good_splits : list str) (splits : list str)
  : list str :=
  match splits with
  | [] =>
      match good_splits with
      | [] => final_chunks
      | _ :: _ => final_chunks ++ merge_splits cfg [] good_splits
      end
  | s :: splits' =>
      if len s <? chunk_size cfg
      then split_loop recurse final_chunks (good_splits ++ [s]) splits'
      else
        let final1 :=
          match good_splits with
          | [] => final_chunks
          | _ :: _ => final_chunks ++ merge_splits cfg [] good_splits
          end in
        match recurse with
        | None => split_loop recurse (final1 ++ [s]) [] splits'
        | Some f => split_loop recurse (final1 ++ f s) [] splits'
        end
  end.

(** The first loop picks the first separator that is empty or occurs in the
    text, and the separators after it; when none qualifies, the last
    separator with nothing after it.  An empty list of separators, on which
    [separators[-1]] raises, is given no passage. *)
Fixpoint _split_text (seps : list str) (text : str) : list str :=
  match seps with
  | [] => []
  | s :: rest =>
      if decide (s = []) then
        split_loop None [] [] (split_text_with_regex text s)
      else if contains s text then
        split_loop (match rest with
                    | [] => None
                    | _ :: _ => Some (_split_text rest)
                    end)
          [] [] (split_text_with_regex text s)
      else
        match rest with
        | [] => split_loop None [] [] (split_text_with_regex text s)
        | _ :: _ => _split_text rest text
        end
  end.

(** [split_text(text)]. *)
Definition split_text (text : str) : list str :=
  _split_text (separators cfg) text.
End split.

(** *** Notions used to state the splitter's properties *)

(** A string is within the chunk size. *)
Definition within (cfg : config) (s : str) : Prop := len s ≤ chunk_size cfg.

(** The invariant of the [for] loop of [_merge_splits], for pieces merged
    with the empty separator: [total] is the length of the pieces of
    [current_doc], it is within the chunk size, and so is every document
    made so far. *)
Definition merge_inv (cfg : config) (st : merge_state) : Prop :=
  total st = len (concat (current_doc st))
  ∧ total st ≤ chunk_size cfg
  ∧ Forall (within cfg) (docs st).

(** What is left of a text that is turned into one passage: the text without
    the white space at its ends, or no passage when that is empty. *)
Definition one_passage (text : str) : list str :=
  if decide (strip text = []) then [] else [strip text].

End TextSplitter.

(** ** Documents, the vector store and the world the pipeline runs in *)

Module Langchain.
Import Py.

(** [langchain_core.documents.Document]. *)
Record Document := Doc {
  page_content : str;
  metadata : gmap str scalar
}.

(** [OpenAIEmbeddings(openai_api_key=..., model=...)]. *)
Record OpenAIEmbeddings := Embeddings {
  emb_api_key : option str;
  emb_model : str
}.

(** [ChatOpenAI(openai_api_key=..., model=..., temperature=...)]. *)
Record ChatOpenAI := Chat {
  llm_api_key : option str;
  llm_model : str;
  llm_temperature : Z
}.

(** [langchain_core.messages.AIMessage], what a chat model's [invoke]
    returns. *)
Record AIMessage := Message { content : str }.

(** The value bound to a name, as far as the pipeline distinguishes them. *)
Inductive object :=
  | OEmbeddings (e : OpenAIEmbeddings)
  | OStr (s : str)
  | ODocs (ds : list Document)
  | OOther (name : string).

(** A [Chroma] handle: the collection it is bound to and the object given as
    its embedding function. *)
Record Chroma := Handle {
  collection_name : str;
  embedding_function : object;
  persist_directory : str
}.

Section world.
Context {Vector : Type}.

(** A record of a Chroma collection. *)
Record Entry := MkEntry {
  e_vector : Vector;
  e_document : Document
}.

(** The state outside the interpreter, in three parts: the files outside
    the directories of the persistent Chroma client, by path; what the
    client keeps in its directories, as the collections by directory and
    name (how Chroma lays a collection out in the files of its directory is
    not modelled, so [files] says nothing about [./chroma_db]); and the
    process environment.  The order of the records of a collection is the
    representation's: the store does not expose one. *)
Record World := MkWorld {
  files : gmap str bytes;
  collections : gmap (str * str) (list Entry);
  environ : gmap str str
}.

Definition set_files (f : gmap str bytes → gmap str bytes) (w : World) :=
  MkWorld (f (files w)) (collections w) (environ w).
Definition set_collections
    (f : gmap (str * str) (list Entry) → gmap (str * str) (list Entry))
    (w : World) :=
  MkWorld (files w) (f (collections w)) (environ w).
Definition set_environ (f : gmap str str → gmap str str) (w : World) :=
  MkWorld (files w) (collections w) (f (environ w)).

(** Python code: it reads and changes the world, and returns or raises.
    The world an exception leaves behind is kept. *)
Definition M (A : Type) : Type := World → result A * World.

Definition ret {A} (a : A) : M A := λ w, (inr a, w).
Definition raise {A} (e : exn) : M A := λ w, (inl e, w).
Definition bind {A B} (m : M A) (k : A → M B) : M B :=
  λ w, match m w with
       | (inr a, w') => k a w'
       | (inl e, w') => (inl e, w')
       end.
Definition lift {A} (r : result A) : M A := λ w, (r, w).
Definition get_world : M World := λ w, (inr w, w).
Definition modify (f : World → World) : M unit := λ w, (inr tt, f w).

(** [try: body except Exception as e: handler(e)]. *)
Definition try_except {A} (body : M A) (handler : exn → M A) : M A :=
  λ w, match body w with
       | (inl e, w') =>
           if is_Exception (exn_class e) then handler e w'
           else (inl e, w')
       | (inr a, w') => (inr a, w')
       end.

(** [try: body finally: cleanup].  The clean-up runs on every way out of
    the body; an exception it raises replaces the body's outcome. *)
Definition try_finally {A} (body : M A) (cleanup : M unit) : M A :=
  λ w, match body w with
       | (r, w') =>
           match cleanup w' with
           | (inl e, w'') => (inl e, w'')
           | (inr _, w'') => (r, w'')
           end
       end.

(** The dictionary a chain's [invoke] returns. *)
Record RetrievalQA := Chain {
  invoke : str → M (gmap str object)
}.

(** The network services and the other choices made outside the program. *)
Record Services := MkServices {
  (** pypdf: the text of each page of a PDF file. *)
  pdf_extract : bytes → result (list str);
  (** Credential validation in the constructors of the OpenAI clients,
      from the key passed and the environment. *)
  client_init : option str → gmap str str → result unit;
  (** The embeddings endpoint. *)
  embed_documents : OpenAIEmbeddings → list str → result (list Vector);
  embed_query : OpenAIEmbeddings → str → result Vector;
  (** [nearer q a b]: [a] is at least as near to [q] as [b] is, in the
      metric of the collection. *)
  nearer : Vector → Vector → Vector → bool;
  (** The chat completions endpoint. *)
  chat_completion : ChatOpenAI → str → result AIMessage;
  (** The name [tempfile] picks for a new file. *)
  tmp_name : gmap str bytes → str
}.
End world.

Arguments Entry : clear implicits.
Arguments World : clear implicits.
Arguments M : clear implicits.
Arguments RetrievalQA : clear implicits.
Arguments Services : clear implicits.

(** Sequencing of Python statements: [x ← m; k] and [m;; k]. *)
#[export] Instance M_ret {Vector : Type} : MRet (M Vector) := λ A, ret.
#[export] Instance M_bind {Vector : Type} : MBind (M Vector) := λ A B k m, bind m k.

End Langchain.

(** ** The library operations the pipeline calls

    Library code, not under the repository, embedded from the libraries. *)

Module Lib.
Import Py Langchain.

(** [RecursiveCharacterTextSplitter.split_documents], through
    [create_documents]:
<<
    for i, text in enumerate(texts):
        for chunk in self.split_text(text):
            metadata = copy.deepcopy(_metadatas[i])
            new_doc = Document(page_content=chunk, metadata=metadata)
            documents.append(new_doc)
>>
    the passages of each document in turn, each carrying a copy of that
    document's metadata. *)
Definition split_documents (cfg : TextSplitter.config)
    (documents : list Document) : list Document :=
  flat_map
    (λ doc, map (λ chunk, Doc chunk (metadata doc))
                (TextSplitter.split_text cfg (page_content doc)))
    documents.

(** [d[key]] on a dictionary.  The text of a [KeyError] is the [repr] of
    the key, which for a key without quotes or escapes is the key between
    single quotes. *)
Definition getitem {A} (d : gmap str A) (key : str) : result A :=
  match d !! key with
  | Some v => inr v
  | None => inl (Exn KeyError (lit "'" ++ key ++ lit "'"))
  end.

(** The attributes of an [AIMessage]: its data fields and its methods.  No
    [str] method is among them. *)
Definition AIMessage_fields : list string :=
  ["content"; "additional_kwargs"; "response_metadata"; "type"; "name";
   "id"; "example"; "tool_calls"; "invalid_tool_calls"; "usage_metadata"]%string.

Definition AIMessage_methods : list string :=
  ["pretty_repr"; "pretty_print"; "dict"; "json"; "copy"; "to_json";
   "model_dump"; "model_dump_json"; "model_copy"; "text"]%string.

(** [message.name()]: look the attribute up, then call it. *)
Definition AIMessage_call (message : AIMessage) (name : string)
  : result object :=
  if decide (name ∈ AIMessage_fields) then
    inl (Exn TypeError (lit "object is not callable"))
  else if decide (name ∈ AIMessage_methods) then
    inr (OOther name)
  else
    inl (Exn AttributeError
           (lit "'AIMessage' object has no attribute '" ++ lit name
              ++ lit "'")).

(** The documents [PyPDFLoader] makes of the page texts of a file: one per
    page, with the path and the zero-based page number as metadata. *)
Definition loaded_pages (file_path : str) (texts : list str)
  : list Document :=
  imap (λ i text,
          Doc text {[ lit "source" := SStr file_path;
                      lit "page" := SInt (Z.of_nat i) ]})
       texts.

Section lib.
Context {Vector : Type} (svc : Services Vector).
Abbreviation M := (M Vector).

(** [PyPDFLoader(file_path).load()]. *)
Definition PyPDFLoader_load (file_path : str) : M (list Document) :=
  w ← get_world;
  match files w !! file_path with
  | None =>
      raise (Exn ValueError
               (lit "File path " ++ file_path
                  ++ lit " is not a valid file or url"))
  | Some data =>
      texts ← lift (pdf_extract svc data);
      ret (loaded_pages file_path texts)
  end.

(** The constructors of the OpenAI clients validate the credential. *)
Definition OpenAIEmbeddings_new (key : option str) (model : str)
  : M OpenAIEmbeddings :=
  w ← get_world;
  lift (client_init svc key (environ w));;
  ret (Embeddings key model).

Definition ChatOpenAI_new (key : option str) (model : str) (temperature : Z)
  : M ChatOpenAI :=
  w ← get_world;
  lift (client_init svc key (environ w));;
  ret (Chat key model temperature).

(** [Chroma(collection_name=..., embedding_function=...,
    persist_directory=...)]: the constructor ends with
<<
    self._collection = self._client.get_or_create_collection(
        name=collection_name, embedding_function=None,
        metadata=collection_metadata)
>>
    the client gets the collection of that name, creating it empty when
    there is none. *)
Definition Chroma_new (name : str) (embedding : object) (dir : str)
  : M Chroma :=
  modify (set_collections (λ cs,
    match cs !! (dir, name) with
    | Some _ => cs
    | None => <[(dir, name) := []]> cs
    end));;
  ret (Handle name embedding dir).

(** [Chroma.add_texts(texts, metadatas, ids)]:
<<
    embeddings = self._embedding_function.embed_documents(texts)
    ...
    self._collection.upsert(metadatas=metadatas, embeddings=embeddings,
                            documents=texts, ids=ids)
>>
    embed the texts, then add one record per text to the collection.  The
    identifiers are new ([uuid.uuid4()]), so no record already there is
    replaced.  The collection validates what it is given: [upsert] refuses
    an empty batch,
<<
    if len(ids) == 0:
        raise ValueError(... Expected IDs to be a non-empty list ...)
>>
    (the wording of the message differs between versions of the client). *)
Definition Chroma_add_texts (store : Chroma) (documents : list Document)
  : M unit :=
  match embedding_function store with
  | OEmbeddings e =>
      vectors ← lift (embed_documents svc e (page_content <$> documents));
      if decide (length documents = 0%nat) then
        raise (Exn ValueError
                 (lit "Expected IDs to be a non-empty list, got 0 IDs"))
      else if decide (length vectors = length documents) then
        modify (set_collections (λ cs,
          let key := (persist_directory store, collection_name store) in
          <[key := default [] (cs !! key)
                     ++ zip_with MkEntry vectors documents]> cs))
      else
        raise (Exn ValueError (lit "Unequal lengths of embeddings and ids"))
  | _ =>
      raise (Exn AttributeError
               (lit "object has no attribute 'embed_documents'"))
  end.

(** [Chroma.from_documents(documents=..., embedding=...,
    collection_name=..., persist_directory=...)], through [from_texts]:
<<
    chroma_collection = cls(collection_name=collection_name,
                            embedding_function=embedding,
                            persist_directory=persist_directory, ...)
    if ids is None:
        ids = [str(uuid.uuid4()) for _ in texts]
    chroma_collection.add_texts(texts=texts, metadatas=metadatas, ids=ids)
    return chroma_collection
>>
    (the client's splitting of inputs beyond its maximal batch size into
    several [add_texts] calls is left out). *)
Definition Chroma_from_documents (documents : list Document)
    (embedding : object) (name dir : str) : M Chroma :=
  store ← Chroma_new name embedding dir;
  Chroma_add_texts store documents;;
  ret store.

(** The [n_results] records of a collection nearest to a query vector,
    nearest first.  Among records equally near the store promises no order;
    the stable sort used here picks one, and no property below compares
    records that are equally near. *)
Definition query_collection (entries : list (Entry Vector)) (q : Vector)
    (n_results : nat) : list (Entry Vector) :=
  take n_results
    (merge_sort (λ a b, nearer svc q (e_vector a) (e_vector b)) entries).

(** [Chroma.similarity_search(query, k)]. *)
Definition Chroma_similarity_search (store : Chroma) (query : str)
    (k : nat) : M (list Document) :=
  match embedding_function store with
  | OEmbeddings e =>
      q ← lift (embed_query svc e query);
      w ← get_world;
      match collections w
              !! (persist_directory store, collection_name store) with
      | Some entries => ret (e_document <$> query_collection entries q k)
      | None =>
          raise (Exn ValueError (lit "Collection does not exist"))
      end
  | _ =>
      raise (Exn AttributeError
               (lit "object has no attribute 'embed_query'"))
  end.

(** [RetrievalQA.from_chain_type(llm=..., chain_type="stuff",
    retriever=store.as_retriever(search_type="similarity",
    search_kwargs={"k": k}), chain_type_kwargs={"prompt": ...},
    return_source_documents=True)]: on [invoke], retrieve, join the
    passages with a blank line, fill the prompt, ask the model once. *)
Definition RetrievalQA_from_chain_type (llm : ChatOpenAI) (store : Chroma)
    (k : nat) (prompt : str → str → str) : RetrievalQA Vector :=
  Chain (λ query,
    docs ← Chroma_similarity_search store query k;
    let context := join [LF; LF] (page_content <$> docs) in
    response ← lift (chat_completion svc llm (prompt context query));
    ret ({[ lit "query" := OStr query;
            lit "result" := OStr (content response);
            lit "source_documents" := ODocs docs ]} : gmap str object)).

(** [os.unlink(path)].  Of the errors of the operating system only the
    missing file is modelled; a file that exists is removed. *)
Definition os_unlink (path : str) : M unit :=
  w ← get_world;
  match files w !! path with
  | Some _ => modify (set_files (delete path))
  | None =>
      raise (Exn FileNotFoundError
               (lit "[Errno 2] No such file or directory: '" ++ path
                  ++ lit "'"))
  end.

(** [with tempfile.NamedTemporaryFile(delete=False, suffix=".pdf") as f:
    f.write(data); path = f.name]: a new file that outlives the block.  The
    errors of the operating system on creating or writing the file (a full
    disk, a missing temporary directory) are not modelled: the properties of
    [process_uploaded_pdf] below are about the runs in which the file was
    written. *)
Definition NamedTemporaryFile_write (data : bytes) : M str :=
  w ← get_world;
  let path := tmp_name svc (files w) in
  modify (set_files <[path := data]>);;
  ret path.
End lib.

End Lib.

(** ** [rag_pipeline.py] *)

Module RagPipeline.
Import Py Langchain Lib.

(** *** Module level: configuration *)

Definition CHUNK_SIZE : Z := 500.
Definition CHUNK_OVERLAP : Z := 50.
Definition COLLECTION_NAME : str := lit "resume_collection".
Definition CHROMA_PERSIST_DIR : str := lit "./chroma_db".

(** [load_dotenv()] adds the variables of the [.env] file that the process
    environment does not define yet; [os.getenv] returns [None] for a name
    that is not defined.  The outcome is the value bound to
    [OPENAI_API_KEY]. *)
Definition load_dotenv {Vector : Type} (dotenv : gmap str str) : M Vector unit :=
  modify (set_environ (λ env, env ∪ dotenv)).

Definition os_getenv {Vector : Type} (name : str) : M Vector (option str) :=
  w ← get_world; ret (environ w !! name).

Definition module_init {Vector : Type} (dotenv : gmap str str)
  : M Vector (option str) :=
  load_dotenv dotenv;;
  OPENAI_API_KEY ← os_getenv (lit "OPENAI_API_KEY");
  ret OPENAI_API_KEY.

(** The names bound at module level once the module is imported. *)
Definition module_globals : list string :=
  ["os"; "load_dotenv"; "PyPDFLoader"; "RecursiveCharacterTextSplitter";
   "OpenAIEmbeddings"; "ChatOpenAI"; "Chroma"; "RetrievalQA";
   "PromptTemplate"; "tempfile"; "OPENAI_API_KEY"; "CHUNK_SIZE";
   "CHUNK_OVERLAP"; "COLLECTION_NAME"; "CHROMA_PERSIST_DIR";
   "load_and_chunk_pdf"; "create_vector_store";
   "load_existing_vector_store"; "build_rag_chain"; "answer_with_rag";
   "answer_without_rag"; "process_uploaded_pdf"; "SUGGESTED_QUESTIONS";
   "__name__"; "__doc__"; "__file__"; "__builtins__"; "__spec__";
   "__loader__"; "__package__"]%string.

(** The names of the [builtins] module. *)
Definition builtins : list string :=
  ["abs"; "aiter"; "all"; "anext"; "any"; "ascii"; "bin"; "bool";
   "breakpoint"; "bytearray"; "bytes"; "callable"; "chr"; "classmethod";
   "compile"; "complex"; "copyright"; "credits"; "delattr"; "dict"; "dir";
   "divmod"; "enumerate"; "eval"; "exec"; "exit"; "filter"; "float";
   "format"; "frozenset"; "getattr"; "globals"; "hasattr"; "hash"; "help";
   "hex"; "id"; "input"; "int"; "isinstance"; "issubclass"; "iter"; "len";
   "license"; "list"; "locals"; "map"; "max"; "memoryview"; "min"; "next";
   "object"; "oct"; "open"; "ord"; "pow"; "print"; "property"; "quit";
   "range"; "repr"; "reversed"; "round"; "set"; "setattr"; "slice";
   "sorted"; "staticmethod"; "str"; "sum"; "super"; "tuple"; "type";
   "vars"; "zip"; "__import__"; "__build_class__"; "__debug__";
   "Ellipsis"; "NotImplemented"; "True"; "False"; "None";
   "BaseException"; "BaseExceptionGroup"; "Exception"; "ExceptionGroup";
   "GeneratorExit"; "KeyboardInterrupt"; "SystemExit"; "ArithmeticError";
   "AssertionError"; "AttributeError"; "BlockingIOError";
   "BrokenPipeError"; "BufferError"; "ChildProcessError";
   "ConnectionAbortedError"; "ConnectionError"; "ConnectionRefusedError";
   "ConnectionResetError"; "EOFError"; "EnvironmentError";
   "FileExistsError"; "FileNotFoundError"; "FloatingPointError";
   "IOError"; "ImportError"; "IndentationError"; "IndexError";
   "InterruptedError"; "IsADirectoryError"; "KeyError"; "LookupError";
   "MemoryError"; "ModuleNotFoundError"; "NameError";
   "NotADirectoryError"; "NotImplementedError"; "OSError";
   "OverflowError"; "PermissionError"; "ProcessLookupError";
   "RecursionError"; "ReferenceError"; "RuntimeError"; "StopAsyncIteration";
   "StopIteration"; "SyntaxError"; "SystemError"; "TabError";
   "TimeoutError"; "TypeError"; "UnboundLocalError"; "UnicodeDecodeError";
   "UnicodeEncodeError"; "UnicodeError"; "UnicodeTranslateError";
   "ValueError"; "ZeroDivisionError"; "Warning"; "BytesWarning";
   "DeprecationWarning"; "EncodingWarning"; "FutureWarning";
   "ImportWarning"; "PendingDeprecationWarning"; "ResourceWarning";
   "RuntimeWarning"; "SyntaxWarning"; "UnicodeWarning"; "UserWarning"]%string.

(** Reading a name that the function does not assign: the module's globals,
    then the builtins, else [NameError]. *)
Definition load_global {Vector : Type} (name : string) : M Vector object :=
  if decide (name ∈ module_globals) then ret (OOther name)
  else if decide (name ∈ builtins) then ret (OOther name)
  else raise (Exn NameError
                (lit "name '" ++ lit name ++ lit "' is not defined")).

(** The dictionary [answer_with_rag] returns, and its source entries. *)
Record Source := MkSource {
  src_content : str;
  src_page : scalar
}.

Record RagAnswer := MkRagAnswer {
  answer : object;
  sources : list Source
}.

(** The double quote, for the literals that hold one. *)
Definition DQ : str := [34%N].

(** [prompt_template] of [build_rag_chain], filled with [context] and
    [question]. *)
Definition PROMPT (context question : str) : str :=
  lit "You are an expert career coach and resume analyst." ++ [LF]
  ++ lit "    " ++ [LF]
  ++ lit "    Use ONLY the following context from the resume to answer the question." ++ [LF]
  ++ lit "    If the information is not in the context provided, say "
  ++ DQ ++ lit "I don't see that information in the resume." ++ DQ ++ [LF]
  ++ lit "    Do not make up or assume information that isn't explicitly in the resume." ++ [LF]
  ++ lit "    " ++ [LF]
  ++ lit "    Be specific and actionable in your feedback." ++ [LF]
  ++ lit "    Reference specific sections, skills, or experiences from the resume when relevant." ++ [LF]
  ++ lit "    " ++ [LF]
  ++ lit "    Context from resume:" ++ [LF]
  ++ lit "    " ++ context ++ [LF]
  ++ lit "    " ++ [LF]
  ++ lit "    Question: " ++ question ++ [LF]
  ++ lit "    " ++ [LF]
  ++ lit "    Detailed Answer:".

(** The f-string of [answer_without_rag]. *)
Definition baseline_prompt (question : str) : str :=
  lit "Answer this question about a resume: " ++ question ++ [LF]
  ++ [LF]
  ++ lit "    Note: You don't have access to the actual resume content." ++ [LF]
  ++ lit "    Answer as best you can based on general knowledge only.".

(** The splitter [load_and_chunk_pdf] configures. *)
Definition text_splitter : TextSplitter.config :=
  TextSplitter.Config CHUNK_SIZE CHUNK_OVERLAP [[LF; LF]; [LF]; [SP]; []].

(** What [load_and_chunk_pdf] returns for a file at [pdf_path] whose pages
    have the texts [texts]. *)
Definition pdf_chunks (pdf_path : str) (texts : list str) : list Document :=
  split_documents text_splitter (loaded_pages pdf_path texts).

Section functions.
Context {Vector : Type} (svc : Services Vector).
Context (OPENAI_API_KEY : option str).
Abbreviation M := (M Vector).

(** Console output is not modelled. *)
Definition load_and_chunk_pdf (pdf_path : str) : M (list Document) :=
  pages ← PyPDFLoader_load svc pdf_path;
  let chunks := split_documents text_splitter pages in
  ret chunks.

Definition create_vector_store (chunks : list Document) : M Chroma :=
  embeddings ← OpenAIEmbeddings_new svc OPENAI_API_KEY
                 (lit "text-embedding-ada-002");
  vector_store ← Chroma_from_documents svc chunks (OEmbeddings embeddings)
                   COLLECTION_NAME CHROMA_PERSIST_DIR;
  ret vector_store.

(** The function binds [embeddingd] and then reads [embeddings]. *)
Definition load_existing_vector_store : M Chroma :=
  embeddingd ← OpenAIEmbeddings_new svc OPENAI_API_KEY
                 (lit "text-embedding-ada-002");
  embeddings ← load_global "embeddings";
  vectore_store ← Chroma_new COLLECTION_NAME embeddings CHROMA_PERSIST_DIR;
  ret vectore_store.

Definition build_rag_chain (vector_store : Chroma) : M (RetrievalQA Vector) :=
  llm ← ChatOpenAI_new svc OPENAI_API_KEY (lit "gpt-3.5-turbo") 0;
  let rag_chain := RetrievalQA_from_chain_type svc llm vector_store 4 PROMPT in
  ret rag_chain.

(** The comprehension over [source_docs]: one dictionary per document. *)
Definition sources_of (source_docs : object) : M (list Source) :=
  match source_docs with
  | ODocs docs =>
      ret (map (λ doc, MkSource (page_content doc)
                         (default (SInt 0) (metadata doc !! lit "page")))
               docs)
  | OStr [] => ret []
  | OStr (_ :: _) =>
      raise (Exn AttributeError
               (lit "'str' object has no attribute 'page_content'"))
  | _ => raise (Exn TypeError (lit "object is not iterable"))
  end.

Definition answer_with_rag (rag_chain : RetrievalQA Vector) (question : str)
  : M RagAnswer :=
  result ← invoke rag_chain question;
  answer ← lift (getitem result (lit "result"));
  source_docs ← lift (getitem result (lit "source_documents"));
  sources ← sources_of source_docs;
  ret (MkRagAnswer answer sources).

Definition answer_without_rag (question : str) : M object :=
  llm ← ChatOpenAI_new svc OPENAI_API_KEY (lit "gpt-3.5-turbo") 0;
  let prompt := baseline_prompt question in
  response ← lift (chat_completion svc llm prompt);
  lift (AIMessage_call response "strip").

(** [uploaded_file] stands for [uploaded_file.getvalue()].  The tuple
    returned: the chain or [None], the number of chunks, the success flag
    and the message. *)
Definition process_uploaded_pdf (uploaded_file : bytes)
  : M (option (RetrievalQA Vector) * Z * bool * str) :=
  tmp_path ← NamedTemporaryFile_write svc uploaded_file;
  try_finally
    (try_except
       (chunks ← load_and_chunk_pdf tmp_path;
        vector_store ← create_vector_store chunks;
        rag_chain ← build_rag_chain vector_store;
        ret (Some rag_chain, len chunks, true,
             lit "Resume processed successfully!"))
       (λ e, ret (None, 0, false,
                  lit "Error processing PDF: " ++ exn_str e)))
    (os_unlink tmp_path).
End functions.

End RagPipeline.

(** ** Concrete services and inputs, for the examples *)

Module Scenario.
Import Py Langchain Lib RagPipeline.

(** A stand-in for the PDF reader: the bytes of the file are its characters
    and a form feed ends a page. *)
Definition pages_of (data : bytes) : list str :=
  re_split [12%N] (Byte.to_N <$> data).

Definition upload (s : string) : bytes := list_byte_of_string s.

(** The constructors reject a missing credential. *)
Definition missing_key : exn :=
  Exn ValueError (lit "Did not find openai_api_key").

Definition check_key (key : option str) (env : gmap str str) : result unit :=
  match key, env !! lit "OPENAI_API_KEY" with
  | None, None => inl missing_key
  | _, _ => inr ()
  end.

(** Vectors are numbers: a text is embedded as its length, and nearness is
    the absolute difference. *)
Definition services : Services Z := {|
  pdf_extract data := inr (pages_of data);
  client_init := check_key;
  embed_documents _ texts := inr (len <$> texts);
  embed_query _ text := inr (len text);
  nearer q a b := Z.abs (a - q) <=? Z.abs (b - q);
  chat_completion _ prompt := inr (Message (lit "It lists Python and SQL."));
  tmp_name _ := lit "/tmp/tmpk3v9x2.pdf"
|}.

(** The embeddings endpoint is out of quota. *)
Definition quota : exn :=
  Exn (ServiceError "EmbeddingServiceError") (lit "quota exceeded").

Definition embedding_down : Services Z := {|
  pdf_extract := pdf_extract services;
  client_init := client_init services;
  embed_documents _ _ := inl quota;
  embed_query _ _ := inl quota;
  nearer := nearer services;
  chat_completion := chat_completion services;
  tmp_name := tmp_name services
|}.

(** The PDF cannot be read, and the reader's message is the same text. *)
Definition unreadable : exn :=
  Exn (ServiceError "DocumentLoadError") (lit "quota exceeded").

Definition loader_down : Services Z := {|
  pdf_extract _ := inl unreadable;
  client_init := client_init services;
  embed_documents := embed_documents services;
  embed_query := embed_query services;
  nearer := nearer services;
  chat_completion := chat_completion services;
  tmp_name := tmp_name services
|}.

(** A machine with no files, no collections and an empty environment. *)
Definition nothing : World Z := MkWorld ∅ ∅ ∅.

Definition api_key : option str := Some (lit "sk-test").

Definition resume : bytes :=
  upload "Skills: Python, SQL. Experience: 2 years as analyst.".

(** A page of three long words: 300 times [a], [b] and [c]. *)
Definition word (c : N) : str := replicate 300 c.

Definition three_words : str :=
  word 97 ++ [SP] ++ word 98 ++ [SP] ++ word 99.

(** The splitter of the pipeline with chunks of 10 characters and an overlap
    of 3, to follow it by hand. *)
Definition small_splitter : TextSplitter.config :=
  TextSplitter.Config 10 3 (TextSplitter.separators text_splitter).

(** A page that starts and ends with white space. *)
Definition padded : str := lit "  Skills: Python, SQL.  ".

(** Two passages, and a chain that retrieves them. *)
Definition passage_a : Document :=
  Doc (lit "Skills: Python, SQL.")
    {[ lit "source" := SStr (lit "cv.pdf"); lit "page" := SInt 2 ]}.

Definition passage_b : Document :=
  Doc (lit "Experience: 2 years as analyst.") ∅.

(** The dictionary of a chain that retrieved [docs]. *)
Definition reply (docs : list Document) (query : str) : gmap str object :=
  {[ lit "query" := OStr query;
     lit "result" := OStr (lit "Python and SQL.");
     lit "source_documents" := ODocs docs ]}.

Definition canned_chain : RetrievalQA Z :=
  Chain (λ query, mret (reply [passage_a; passage_b] query)).

(** A machine that holds the resume as [cv.pdf], and a chain that retrieves
    the passages of that file. *)
Definition desk : World Z := MkWorld {[ lit "cv.pdf" := resume ]} ∅ ∅.

Definition resume_chain : RetrievalQA Z :=
  Chain (λ query,
    mret (reply (pdf_chunks (lit "cv.pdf") (pages_of resume)) query)).

(** Two uploads with different content, and a machine holding the first. *)
Definition first_set : list Document := [Doc (lit "alpha") ∅].
Definition second_set : list Document := [Doc (lit "omega!") ∅].

Definition resume_store : Chroma :=
  Handle COLLECTION_NAME
    (OEmbeddings (Embeddings api_key (lit "text-embedding-ada-002")))
    CHROMA_PERSIST_DIR.

Definition after_first : World Z :=
  (create_vector_store services api_key first_set nothing).2.

Definition after_second : World Z :=
  (create_vector_store services api_key second_set after_first).2.

End Scenario.

(** ** Notions used to state further properties of the pipeline *)

Module Notions.
Import Py TextSplitter Langchain.

(** [s] is a contiguous part of [t]. *)
Definition part_of (s t : str) : Prop := ∃ a b, t = a ++ s ++ b.

(** A text as [strip] leaves it when something is left: not empty, and with
    no white space at either end. *)
Definition stripped (s : str) : Prop :=
  s ≠ []
  ∧ (∀ c, head s = Some c → isspace c = false)
  ∧ (∀ c, last s = Some c → isspace c = false).

(** While the pieces [done] are merged: the pieces kept in [current_doc] are
    the last of them, and every document made so far is a stripped part of
    what they spell. *)
Definition made_inv (st : merge_state) (done : list str) : Prop :=
  current_doc st `suffix_of` done
  ∧ Forall (λ doc, stripped doc ∧ part_of doc (concat done)) (docs st).

(** The [page] entry of a document's metadata. *)
Definition page_of (doc : Document) : option scalar :=
  metadata doc !! lit "page".

(** The page of the first document is not after the page of the second. *)
Definition page_le (doc1 doc2 : Document) : Prop :=
  ∃ i j : Z,
    page_of doc1 = Some (SInt i) ∧ page_of doc2 = Some (SInt j) ∧ i ≤ j.

(** The source entry [answer_with_rag] makes of a retrieved document. *)
Definition source_of (doc : Document) : RagPipeline.Source :=
  RagPipeline.MkSource (page_content doc)
    (default (SInt 0) (metadata doc !! lit "page")).

End Notions.

(** ** Further concrete inputs *)

Module Cases.
Import Py Langchain Lib RagPipeline Scenario.

(** The chain [build_rag_chain] makes over the collection of the examples,
    and what it answers once both passage sets are in the collection. *)
Definition built_chain : RetrievalQA Z :=
  RetrievalQA_from_chain_type services
    (Chat api_key (lit "gpt-3.5-turbo") 0) resume_store 4 PROMPT.

Definition alpha_answer : RagAnswer :=
  MkRagAnswer (OStr (lit "It lists Python and SQL."))
    [MkSource (lit "alpha") (SInt 0); MkSource (lit "omega!") (SInt 0)].

(** A chain made without [return_source_documents]: its dictionary has no
    [source_documents]. *)
Definition bare_reply (query : str) : gmap str object :=
  {[ lit "query" := OStr query;
     lit "result" := OStr (lit "Python and SQL.") ]}.

Definition bare_chain : RetrievalQA Z :=
  Chain (λ query, mret (bare_reply query)).

(** The machine after the resume was uploaded and processed on a machine
    with nothing on it. *)
Definition after_upload : World Z :=
  (process_uploaded_pdf services api_key resume nothing).2.

End Cases.

(** ** [app.py]

    The Streamlit script.  Streamlit runs it from top to bottom each time
    the user acts; [st.session_state] lives across the runs of a session.
    What the widgets return in a run is the input of that run.  Of the page
    the script draws, the elements that show data are kept; fixed text,
    styling and layout are left out. *)

Module App.
Import Py Langchain Lib RagPipeline.

(** [SUGGESTED_QUESTIONS] of [rag_pipeline.py]. *)
Definition SUGGESTED_QUESTIONS : list str :=
  [lit "What are my strongest technical skills?";
   lit "What skills am I missing for a Machine Learning Engineer role?";
   lit "How strong is my work experience section?";
   lit "What projects do I have and how impressive are they?";
   lit "What should I improve to be more competitive for Data Science roles?";
   lit "How does my education background support my target roles?";
   lit "What keywords am I missing that recruiters look for?";
   lit "What is my biggest weakness as a candidate based on this resume?";
   lit "What roles am I best qualified for right now?";
   lit "Write me a 3-sentence professional summary based on this resume"].

(** The truth value of an object in a condition. *)
Definition truthy (o : object) : bool :=
  match o with
  | OStr [] => false
  | ODocs [] => false
  | _ => true
  end.

(** An entry of [qa_history]. *)
Record QA := MkQA {
  qa_question : str;
  qa_answer : object
}.

(** The dictionary kept as [current_answer]. *)
Record Answer := MkAnswer {
  ans_question : str;
  ans_rag_answer : object;
  ans_sources : list Source;
  ans_no_rag_answer : option object
}.

(** The elements of the page that show data. *)
Inductive element :=
  | Success (message : str)
  | Error (message : str)
  | ChunksCreated (count : Z)
  | QuestionShown (question : str)
  | RagAnswerBox (rag_answer : object)
  | NoRagAnswerBox (no_rag_answer : object)
  | SourcesHeader (count : Z)
  | SourceBox (chunk_number : Z) (page_number : Z) (content : str)
  | HistoryEntry (question : str) (past_answer : object)
  | UploadPrompt.

(** What the widgets return in one run: the comparison toggle, the bytes of
    the uploaded file if there is one, which suggested-question buttons were
    clicked, what the text box holds given the value it is created with, and
    the two buttons. *)
Record Widgets := MkWidgets {
  show_comparison : bool;
  uploaded_file : option bytes;
  suggested_clicked : nat → bool;
  text_input : str → str;
  ask_button : bool;
  clear_button : bool
}.

(** Why a run ends before the end of the script: an exception, or
    [st.rerun()]. *)
Inductive stop :=
  | Raised (e : exn)
  | Rerun.

Section app.
Context {Vector : Type} (svc : Services Vector).
Context (OPENAI_API_KEY : option str).

(** [st.session_state], once the defaults at the top of the script are
    set. *)
Record SessionState := MkSession {
  rag_chain : option (RetrievalQA Vector);
  resume_processed : bool;
  chunk_count : Z;
  qa_history : list QA;
  current_answer : option Answer;
  current_question : str
}.

(** The state of a session in its first run, after the defaults. *)
Definition new_session : SessionState :=
  MkSession None false 0 [] None [].

(** A run in progress: the session state, the world and the page drawn so
    far. *)
Record RunState := MkRun {
  session : SessionState;
  world : World Vector;
  page : list element
}.

Definition Script (A : Type) : Type := RunState → (stop + A) * RunState.

Definition script_ret {A} (a : A) : Script A := λ s, (inr a, s).
Definition script_bind {A B} (m : Script A) (k : A → Script B) : Script B :=
  λ s, match m s with
       | (inr a, s') => k a s'
       | (inl why, s') => (inl why, s')
       end.

(** A call into [rag_pipeline]: an exception it raises ends the run. *)
Definition call {A} (m : M Vector A) : Script A :=
  λ s, match m (world s) with
       | (inr a, w') => (inr a, MkRun (session s) w' (page s))
       | (inl e, w') => (inl (Raised e), MkRun (session s) w' (page s))
       end.

Definition get_session : Script SessionState := λ s, (inr (session s), s).
Definition set_session (f : SessionState → SessionState) : Script unit :=
  λ s, (inr tt, MkRun (f (session s)) (world s) (page s)).
Definition emit (el : element) : Script unit :=
  λ s, (inr tt, MkRun (session s) (world s) (page s ++ [el])).
Definition script_raise {A} (e : exn) : Script A := λ s, (inl (Raised e), s).
Definition st_rerun {A} : Script A := λ s, (inl Rerun, s).
End app.

Arguments SessionState : clear implicits.
Arguments RunState : clear implicits.
Arguments Script : clear implicits.

#[export] Instance Script_ret {Vector : Type} : MRet (Script Vector) :=
  λ A, script_ret.
#[export] Instance Script_bind {Vector : Type} : MBind (Script Vector) :=
  λ A B k m, script_bind m k.

Section script.
Context {Vector : Type} (svc : Services Vector).
Context (OPENAI_API_KEY : option str).
Abbreviation Script := (Script Vector).

(** The upload step: a resume is processed only while the session has none
    processed. *)
Definition upload_step (file : bytes) : Script unit :=
  ss ← get_session;
  if resume_processed ss then mret tt
  else
    r ← call (process_uploaded_pdf svc OPENAI_API_KEY file);
    let '(chain, count, success, message) := r in
    if success : bool then
      set_session (λ ss, MkSession chain true count (qa_history ss)
                           (current_answer ss) (current_question ss));;
      emit (Success message)
    else
      emit (Error message).

(** The buttons of the first six suggested questions: a clicked button puts
    its question in [current_question]. *)
Definition suggested_step (wd : Widgets) : Script unit :=
  foldl (λ (before : Script unit) '(i, question),
           before;;
           if suggested_clicked wd i then
             set_session (λ ss, MkSession (rag_chain ss)
                                  (resume_processed ss) (chunk_count ss)
                                  (qa_history ss) (current_answer ss)
                                  question)
           else mret tt)
    (mret tt) (imap pair (take 6 SUGGESTED_QUESTIONS)).

(** The Clear button. *)
Definition clear_step (wd : Widgets) : Script unit :=
  if clear_button wd then
    set_session (λ ss, MkSession (rag_chain ss) (resume_processed ss)
                         (chunk_count ss) [] None (current_question ss));;
    st_rerun
  else mret tt.

(** The Get Answer button, with a question in the box. *)
Definition ask_step (wd : Widgets) (user_question : str) : Script unit :=
  if ask_button wd && bool_decide (user_question ≠ []) then
    ss ← get_session;
    rag_result ←
      match rag_chain ss with
      | Some chain => call (answer_with_rag chain user_question)
      | None =>
          script_raise
            (Exn AttributeError
               (lit "'NoneType' object has no attribute 'invoke'"))
      end;
    no_rag_answer ←
      (if show_comparison wd then
         a ← call (answer_without_rag svc OPENAI_API_KEY user_question);
         mret (Some a)
       else mret None);
    set_session (λ ss,
      MkSession (rag_chain ss) (resume_processed ss) (chunk_count ss)
        (qa_history ss ++ [MkQA user_question (answer rag_result)])
        (Some (MkAnswer user_question (answer rag_result)
                 (sources rag_result) no_rag_answer))
        [])
  else mret tt.

(** The source boxes: chunk numbers from 1, and the page shown is the stored
    page plus one, which only a number allows. *)
Fixpoint show_sources (i : nat) (sources : list Source) : Script unit :=
  match sources with
  | [] => mret tt
  | source :: rest =>
      match src_page source with
      | SInt p =>
          emit (SourceBox (Z.of_nat i + 1) (p + 1) (src_content source));;
          show_sources (S i) rest
      | _ =>
          script_raise
            (Exn TypeError (lit "unsupported operand type(s) for +"))
      end
  end.

(** The answer on display. *)
Definition display_step (wd : Widgets) : Script unit :=
  ss ← get_session;
  match current_answer ss with
  | Some current =>
      emit (QuestionShown (ans_question current));;
      (if show_comparison wd
          && from_option truthy false (ans_no_rag_answer current) then
         emit (RagAnswerBox (ans_rag_answer current));;
         match ans_no_rag_answer current with
         | Some a => emit (NoRagAnswerBox a)
         | None => mret tt
         end
       else emit (RagAnswerBox (ans_rag_answer current)));;
      emit (SourcesHeader (len (ans_sources current)));;
      show_sources 0 (ans_sources current)
  | None => mret tt
  end.

(** The earlier questions: all but the latest, newest first, once there are
    at least two. *)
Definition history_step : Script unit :=
  ss ← get_session;
  if 1 <? len (qa_history ss) then
    foldl (λ (before : Script unit) qa,
             before;; emit (HistoryEntry (qa_question qa) (qa_answer qa)))
      (mret tt)
      (rev (take (length (qa_history ss) - 1) (qa_history ss)))
  else mret tt.

(** The script, from the upload step on. *)
Definition script (wd : Widgets) : Script unit :=
  match uploaded_file wd with
  | Some file =>
      upload_step file;;
      ss ← get_session;
      if resume_processed ss then
        emit (ChunksCreated (chunk_count ss));;
        suggested_step wd;;
        ss ← get_session;
        let user_question := text_input wd (current_question ss) in
        clear_step wd;;
        ask_step wd user_question;;
        display_step wd;;
        history_step
      else mret tt
  | None => emit UploadPrompt
  end.

(** One run of the script in a session. *)
Definition run (wd : Widgets) (ss : SessionState Vector) (w : World Vector)
  : (stop + unit) * RunState Vector :=
  script wd (MkRun ss w []).
End script.

(** *** Notions used to state the script's properties *)

(** The question left in [current_question] by the suggested-question
    buttons: that of the last clicked button, or the one there before. *)
Definition pick_question (wd : Widgets) (before : str) : str :=
  foldl (λ q '(i, question), if suggested_clicked wd i then question else q)
    before (imap pair (take 6 SUGGESTED_QUESTIONS)).

(** What the text box holds in a run. *)
Definition asked (wd : Widgets) (before : str) : str :=
  text_input wd (pick_question wd before).

(** The source with the given text and page number. *)
Definition numbered_source (shown : str * Z) : Source :=
  MkSource shown.1 (SInt shown.2).

(** The box of chunk [i + 1]: the page shown is one more than the page
    stored. *)
Definition source_box (i : nat) (shown : str * Z) : element :=
  SourceBox (Z.of_nat i + 1) (shown.2 + 1) shown.1.

(** The line of the history for an entry of [qa_history]. *)
Definition history_entry (qa : QA) : element :=
  HistoryEntry (qa_question qa) (qa_answer qa).

(** A session whose processed flag, if set, comes with a chain. *)
Definition chain_ready {Vector : Type} (ss : SessionState Vector) : Prop :=
  resume_processed ss = true → is_Some (rag_chain ss).

(** The runs of a session, one for each of the user's actions: the session
    state and the world of a run are those the run before left, however it
    ended. *)
Fixpoint runs {Vector : Type} (svc : Services Vector)
    (OPENAI_API_KEY : option str) (actions : list Widgets)
    (ss : SessionState Vector) (w : World Vector)
  : SessionState Vector * World Vector :=
  match actions with
  | [] => (ss, w)
  | wd :: rest =>
      let s := (run svc OPENAI_API_KEY wd ss w).2 in
      runs svc OPENAI_API_KEY rest (session s) (world s)
  end.

End App.

(** ** Concrete sessions *)

Module Sessions.
Import Py Langchain Lib RagPipeline Scenario Cases App.

(** A session right after the resume of the examples was processed. *)
Definition ready : SessionState Z :=
  MkSession (Some built_chain) true 1 [] None [].

(** The user types a question and presses Get Answer. *)
Definition typing (question : string) (comparison : bool) (file : bytes)
  : Widgets :=
  MkWidgets comparison (Some file) (λ _, false) (λ _, lit question) true
    false.

(** The user presses Clear. *)
Definition clearing (file : bytes) : Widgets :=
  MkWidgets false (Some file) (λ _, false) (λ before, before) false true.

(** A session with two questions asked. *)
Definition busy : SessionState Z :=
  MkSession (Some built_chain) true 1
    [MkQA (lit "What skills are listed?") (OStr (lit "Python and SQL."));
     MkQA (lit "How many years?") (OStr (lit "Two."))]
    (Some (MkAnswer (lit "How many years?") (OStr (lit "Two."))
             [MkSource (lit "Experience: 2 years as analyst.") (SInt 0)]
             None))
    [].

(** Another file, uploaded in the same session. *)
Definition other_resume : bytes := upload "Skills: Rust. Experience: none.".

(** The reply of the chain of the examples to a question. *)
Definition skills_answer : RagAnswer :=
  MkRagAnswer (OStr (lit "It lists Python and SQL."))
    [MkSource (lit "Skills: Python, SQL. Experience: 2 years as analyst.")
       (SInt 0)].

End Sessions.

(** * Properties *)

Import Py TextSplitter Langchain Lib RagPipeline Scenario.

Section monad_facts.
Context {Vector : Type}.
Implicit Types w : World Vector.

Lemma bind_inv {A B} (m : M Vector A) (k : A → M Vector B) w r w' :
  (x ← m; k x) w = (r, w') →
  (∃ e, m w = (inl e, w') ∧ r = inl e)
  ∨ (∃ a w1, m w = (inr a, w1) ∧ k a w1 = (r, w')).
Proof.
  unfold mbind, M_bind, bind. destruct (m w) as [[e|a] w1]; intros H.
  - left. exists e. by simplify_eq.
  - right. by exists a, w1.
Qed.

Lemma bind_ok {A B} (m : M Vector A) (k : A → M Vector B) w b w' :
  (x ← m; k x) w = (inr b, w') →
  ∃ a w1, m w = (inr a, w1) ∧ k a w1 = (inr b, w').
Proof.
  intros [(e & _ & ?)|H]%bind_inv; [done | exact H].
Qed.

Lemma lift_ok {A} (r : result A) w a w' :
  lift r w = (inr a, w') → r = inr a ∧ w' = w.
Proof. unfold lift. intros; by simplify_eq. Qed.

Lemma ret_ok {A} (a b : A) w w' :
  (mret a : M Vector A) w = (inr b, w') → a = b ∧ w' = w.
Proof. unfold mret, M_ret, ret. intros; by simplify_eq. Qed.
End monad_facts.

Section answer_with_rag_facts.
Context {Vector : Type}.

Lemma getitem_ok {A} (d : gmap str A) key v :
  getitem d key = inr v → d !! key = Some v.
Proof. unfold getitem. destruct (d !! key); intros; by simplify_eq. Qed.

(** What a successful call returns, read off the chain's dictionary. *)
Lemma answer_with_rag_ok (rag_chain : RetrievalQA Vector) question
    (w w' : World Vector) r :
  answer_with_rag rag_chain question w = (inr r, w') →
  ∃ d source_docs,
    invoke rag_chain question w = (inr d, w')
    ∧ d !! lit "result" = Some (answer r)
    ∧ d !! lit "source_documents" = Some source_docs
    ∧ @sources_of Vector source_docs w' = (inr (sources r), w').
Proof.
  unfold answer_with_rag.
  intros (d & w1 & Hinv & H)%bind_ok.
  apply bind_ok in H as (a & w2 & [Ha ->]%lift_ok & H).
  apply bind_ok in H as (sd & w3 & [Hsd ->]%lift_ok & H).
  apply bind_ok in H as (ss & w4 & Hss & [<- ->]%ret_ok).
  assert (w4 = w1) as ->.
  { unfold sources_of in Hss. destruct sd as [| [|] | |];
      unfold mret, M_ret, ret, raise in Hss; by simplify_eq. }
  exists d, sd. simpl. split_and!; [done| by apply getitem_ok ..|done].
Qed.
End answer_with_rag_facts.

(** C10.  When [answer_with_rag] returns, its answer is the chain's result
    and its sources are the retrieved documents one for one, in retrieval
    order: the content is the passage text and the page is the passage's
    [page] metadata, or 0 when the passage has none. *)
Theorem answer_with_rag_sources {Vector : Type}
    (rag_chain : RetrievalQA Vector) (question : str) (w w' : World Vector)
    (r : RagAnswer) (d : gmap str object) (docs : list Document) :
  answer_with_rag rag_chain question w = (inr r, w') →
  invoke rag_chain question w = (inr d, w') →
  d !! lit "source_documents" = Some (ODocs docs) →
  length (sources r) = length docs
  ∧ ∀ i doc, docs !! i = Some doc →
      ∃ s, sources r !! i = Some s
           ∧ src_content s = page_content doc
           ∧ src_page s = match metadata doc !! lit "page" with
                          | Some p => p
                          | None => SInt 0
                          end.
Proof.
  intros (d' & sd & Hinv & _ & Hsd & Hss)%answer_with_rag_ok Hd Hdocs.
  assert (d' = d) as -> by congruence.
  assert (sd = ODocs docs) as -> by congruence.
  unfold sources_of, mret, M_ret, ret in Hss.
  injection Hss as <-.
  split; [by rewrite length_map|].
  intros i doc Hi. eexists. rewrite list_lookup_fmap, Hi. simpl.
  split; [done|]. split; [done|]. by destruct (metadata doc !! lit "page").
Qed.

Section cleanup_facts.
Context {Vector : Type} (svc : Services Vector).
Implicit Types w : World Vector.

(** After [os.unlink(path)], returned or raised, the path names no file. *)
Lemma os_unlink_gone path w r w' :
  os_unlink path w = (r, w') → files w' !! path = None.
Proof.
  unfold os_unlink, mbind, M_bind, bind, get_world, modify, raise.
  destruct (files w !! path) eqn:Hp; intros; simplify_eq; simpl.
  - apply lookup_delete_eq.
  - done.
Qed.

(** A [finally: os.unlink(path)] removes the file whatever the body of the
    [try] statement did. *)
Lemma try_finally_unlink {A} (body : M Vector A) path w r w' :
  try_finally body (os_unlink path) w = (r, w') →
  files w' !! path = None.
Proof.
  unfold try_finally. destruct (body w) as [r1 w1].
  destruct (os_unlink path w1) as [[e|[]] w2] eqn:Hu; intros; simplify_eq;
    eauto using os_unlink_gone.
Qed.
End cleanup_facts.

(** C9.  When [process_uploaded_pdf] leaves its processing phase, by return
    or by exception, whichever of loading, chunking, embedding and index
    build failed or succeeded, the temporary file that held the upload no
    longer exists. *)
Theorem process_uploaded_pdf_removes_tmp {Vector : Type}
    (svc : Services Vector) (OPENAI_API_KEY : option str)
    (uploaded_file : bytes) (w : World Vector) :
  files (process_uploaded_pdf svc OPENAI_API_KEY uploaded_file w).2
    !! tmp_name svc (files w) = None.
Proof.
  unfold process_uploaded_pdf, NamedTemporaryFile_write.
  unfold mbind at 1 2 3, M_bind, bind, get_world, modify, mret, M_ret, ret.
  simpl.
  match goal with
  | |- files (?m ?w1).2 !! _ = None => destruct (m w1) as [r w'] eqn:H
  end.
  by apply try_finally_unlink in H.
Qed.

Section name_facts.
Context {Vector : Type}.

(** No binding of the module or of the builtins is called [embeddings]. *)
Lemma load_global_embeddings (w : World Vector) :
  load_global "embeddings" w
  = (inl (Exn NameError (lit "name 'embeddings' is not defined")), w).
Proof.
  by vm_compute.
Qed.

(** [AIMessage] has no attribute [strip]. *)
Lemma AIMessage_no_strip (message : AIMessage) :
  AIMessage_call message "strip"
  = inl (Exn AttributeError
           (lit "'AIMessage' object has no attribute 'strip'")).
Proof. by vm_compute. Qed.
End name_facts.

(** C3.  [load_existing_vector_store] never returns a handle.  It raises
    whatever the construction of the embeddings client raises and, when the
    client is constructed, the [NameError] for [embeddings], before the
    collection is opened.  The world is left as it was. *)
Theorem load_existing_vector_store_raises {Vector : Type}
    (svc : Services Vector) (OPENAI_API_KEY : option str) (w : World Vector) :
  load_existing_vector_store svc OPENAI_API_KEY w
  = match client_init svc OPENAI_API_KEY (environ w) with
    | inl e => (inl e, w)
    | inr _ =>
        (inl (Exn NameError (lit "name 'embeddings' is not defined")), w)
    end.
Proof.
  unfold load_existing_vector_store, OpenAIEmbeddings_new.
  unfold mbind, M_bind, bind, get_world, lift, mret, M_ret, ret.
  destruct (client_init svc OPENAI_API_KEY (environ w)) as [e|[]]; [done|].
  by rewrite load_global_embeddings.
Qed.

(** C5.  [answer_without_rag] never returns an answer.  It raises whatever
    the construction of the chat client or the service call raises and, when
    the service replies, the [AttributeError] for [strip] on the reply, an
    [AIMessage]. *)
Theorem answer_without_rag_raises {Vector : Type}
    (svc : Services Vector) (OPENAI_API_KEY : option str) (question : str)
    (w : World Vector) :
  answer_without_rag svc OPENAI_API_KEY question w
  = match client_init svc OPENAI_API_KEY (environ w) with
    | inl e => (inl e, w)
    | inr _ =>
        match chat_completion svc
                (Chat OPENAI_API_KEY (lit "gpt-3.5-turbo") 0)
                (baseline_prompt question) with
        | inl e => (inl e, w)
        | inr _ =>
            (inl (Exn AttributeError
                    (lit "'AIMessage' object has no attribute 'strip'")), w)
        end
    end.
Proof.
  unfold answer_without_rag, ChatOpenAI_new.
  unfold mbind, M_bind, bind, get_world, lift, mret, M_ret, ret.
  destruct (client_init svc OPENAI_API_KEY (environ w)) as [e|[]]; [done|].
  destruct (chat_completion svc _ _) as [e|response]; [done|].
  by rewrite AIMessage_no_strip.
Qed.


(** C4, as stated, fails.  With no credential in the environment nor in the
    [.env] file, initialising the module raises nothing: it binds
    [OPENAI_API_KEY] to [None]. *)
Lemma module_init_without_credential :
  @module_init Z ∅ nothing = (inr None, nothing).
Proof. by vm_compute. Qed.

Section failure_facts.
Context {Vector : Type} (svc : Services Vector) (key : option str).
Implicit Types w : World Vector.

(** The chunks of a PDF whose pages have the given texts. *)
Lemma load_and_chunk_pdf_eq path w data :
  files w !! path = Some data →
  load_and_chunk_pdf svc path w
  = match pdf_extract svc data with
    | inl e => (inl e, w)
    | inr texts => (inr (pdf_chunks path texts), w)
    end.
Proof.
  intros Hf. unfold load_and_chunk_pdf, PyPDFLoader_load.
  unfold mbind, M_bind, bind, get_world. rewrite Hf.
  unfold lift. by destruct (pdf_extract svc data).
Qed.

End failure_facts.



(** C4, amended.  With no credential in the environment nor in the [.env]
    file, initialising the module succeeds and binds [OPENAI_API_KEY] to
    [None].  The missing credential is met only when a function first
    constructs a client: what the constructor raises for [None] is what
    [create_vector_store], [build_rag_chain] and [answer_without_rag]
    raise. *)
Theorem missing_credential_is_deferred {Vector : Type}
    (svc : Services Vector) (dotenv : gmap str str) (w w1 : World Vector)
    (e : exn) (chunks : list Document) (vector_store : Chroma)
    (question : str) :
  environ w !! lit "OPENAI_API_KEY" = None →
  dotenv !! lit "OPENAI_API_KEY" = None →
  client_init svc None (environ w1) = inl e →
  module_init dotenv w = (inr None, set_environ (λ env, env ∪ dotenv) w)
  ∧ create_vector_store svc None chunks w1 = (inl e, w1)
  ∧ build_rag_chain svc None vector_store w1 = (inl e, w1)
  ∧ answer_without_rag svc None question w1 = (inl e, w1).
Proof.
  intros Henv Hdot Hc. split_and!.
  - unfold module_init, load_dotenv, os_getenv.
    unfold mbind, M_bind, bind, get_world, modify, mret, M_ret, ret. simpl.
    by rewrite lookup_union, Henv, Hdot.
  - unfold create_vector_store, OpenAIEmbeddings_new.
    unfold mbind, M_bind, bind, get_world, lift. by rewrite Hc.
  - unfold build_rag_chain, ChatOpenAI_new.
    unfold mbind, M_bind, bind, get_world, lift. by rewrite Hc.
  - unfold answer_without_rag, ChatOpenAI_new.
    unfold mbind, M_bind, bind, get_world, lift. by rewrite Hc.
Qed.

Lemma missing_credential_is_deferred_witness :
  @module_init Z ∅ nothing
  = (inr None, set_environ (λ env, env ∪ ∅) nothing)
  ∧ create_vector_store services None [] nothing = (inl missing_key, nothing)
  ∧ build_rag_chain services None
      (Handle COLLECTION_NAME (OOther "none") CHROMA_PERSIST_DIR) nothing
    = (inl missing_key, nothing)
  ∧ answer_without_rag services None (lit "What skills are listed?") nothing
    = (inl missing_key, nothing).
Proof.
  apply (missing_credential_is_deferred services ∅ nothing nothing
           missing_key); reflexivity.
Defined.

(** *** Strings *)

Lemma len_nil {A} : len (@nil A) = 0.
Proof. done. Qed.

Lemma len_app {A} (s t : list A) : len (s ++ t) = len s + len t.
Proof. unfold len. rewrite length_app. lia. Qed.

Lemma len_cons {A} (c : A) (s : list A) : len (c :: s) = 1 + len s.
Proof. unfold len. simpl length. lia. Qed.

Lemma len_nonneg {A} (s : list A) : 0 ≤ len s.
Proof. unfold len. lia. Qed.

Lemma len_zero {A} (s : list A) : len s = 0 → s = [].
Proof. unfold len. destruct s; [done|]. simpl length. lia. Qed.

Lemma lstrip_length s : (length (lstrip s) ≤ length s)%nat.
Proof.
  induction s as [|c s IH]; simpl; [done|].
  destruct (isspace c); simpl; lia.
Qed.

Lemma strip_len s : len (strip s) ≤ len s.
Proof.
  unfold len, strip, rstrip. rewrite length_rev.
  pose proof (lstrip_length (rev (lstrip s))) as H1.
  rewrite length_rev in H1. pose proof (lstrip_length s). lia.
Qed.

Lemma join_nil_sep parts : join [] parts = concat parts.
Proof.
  induction parts as [|p [|q parts] IH]; simpl in *.
  - done.
  - by rewrite app_nil_r.
  - by rewrite IH.
Qed.

Lemma len_concat_app (l1 l2 : list str) :
  len (concat (l1 ++ l2)) = len (concat l1) + len (concat l2).
Proof. by rewrite concat_app, len_app. Qed.

(** *** Merging pieces: every document made is within the chunk size *)

Section merge_facts.
Context (cfg : config).
Abbreviation cs := (chunk_size cfg).

Abbreviation within := (within cfg).
Abbreviation merge_inv := (merge_inv cfg).

Lemma join_docs_within parts doc :
  len (concat parts) ≤ cs → join_docs parts [] = Some doc → within doc.
Proof.
  unfold join_docs, within. rewrite join_nil_sep. intros Hlen.
  case_decide; intros; simplify_eq.
  pose proof (strip_len (concat parts)). lia.
Qed.

Lemma sep_len_nil {P Q : Prop} (b : {P} + {Q}) :
  (if b then separator_len [] else 0) = 0.
Proof. by destruct b. Qed.

(** The inner loop keeps [total] the length of [current_doc] and stops
    either with room for the next piece or with nothing left. *)
Lemma pop_front_spec _len cur tot cur' tot' :
  tot = len (concat cur) →
  pop_front cfg [] _len cur tot = (cur', tot') →
  tot' = len (concat cur') ∧ (tot' + _len ≤ cs ∨ tot' = 0).
Proof.
  revert tot. induction cur as [|d0 rest IH]; intros tot Htot; simpl.
  - intros [= <- <-]. subst tot. split; [done|]. by right.
  - destruct (must_pop cfg [] tot _len (d0 :: rest)) eqn:Hpop.
    + apply IH. destruct (decide _);
        unfold separator_len; rewrite ?len_nil; subst tot;
        simpl concat; rewrite len_app; lia.
    + intros [= <- <-]. split; [done|].
      unfold must_pop in Hpop. rewrite sep_len_nil in Hpop.
      apply orb_false_iff in Hpop as [H1 H2].
      apply andb_false_iff in H2 as [H2|H2].
      * left. lia.
      * right. pose proof (len_nonneg (concat (d0 :: rest))). lia.
Qed.

(** With nothing left in [current_doc], where [total] is 0, the guard of the
    inner loop is false: the loop never reads [current_doc[0]] of an empty
    list. *)
Lemma must_pop_nil separator _len :
  0 ≤ chunk_overlap cfg → must_pop cfg separator 0 _len [] = false.
Proof.
  intros Hov. unfold must_pop. apply orb_false_iff. split; [lia|].
  apply andb_false_iff. right. lia.
Qed.

(** What the inner loop keeps for the next document is a tail of the pieces
    of the document just made, of at most [chunk_overlap] characters. *)
Lemma pop_front_keeps_tail _len cur tot cur' tot' :
  0 ≤ chunk_overlap cfg →
  tot = len (concat cur) →
  pop_front cfg [] _len cur tot = (cur', tot') →
  cur' `suffix_of` cur ∧ len (concat cur') ≤ chunk_overlap cfg.
Proof.
  intros Hov. revert tot. induction cur as [|d0 rest IH]; intros tot Htot;
    simpl.
  - intros [= <- <-]. split; [done|]. simpl. by rewrite (@len_nil N).
  - destruct (must_pop cfg [] tot _len (d0 :: rest)) eqn:Hpop.
    + intros Hrec. apply IH in Hrec as [Hsuf Hlen].
      * split; [by apply suffix_cons_r | done].
      * rewrite sep_len_nil. subst tot. simpl concat. rewrite len_app. lia.
    + intros [= <- <-]. split; [done|].
      unfold must_pop in Hpop. apply orb_false_iff in Hpop as [H1 _]. lia.
Qed.

Lemma merge_step_inv st d :
  merge_inv st → len d < cs → merge_inv (merge_step cfg [] st d).
Proof.
  intros (Htot & Hle & Hdocs) Hd. unfold merge_step.
  rewrite !sep_len_nil.
  destruct (cs <? total st + len d + 0) eqn:Hbig.
  - destruct (current_doc st) as [|d0 rest] eqn:Hcur.
    { exfalso. rewrite Htot in Hbig. simpl in Hbig. rewrite len_nil in Hbig.
      lia. }
    rewrite <- Hcur in *.
    destruct (pop_front cfg [] (len d) (current_doc st) (total st))
      as [cur' tot'] eqn:Hpop.
    apply pop_front_spec in Hpop as [Htot' Hroom]; [|done].
    simpl. rewrite ?sep_len_nil. split_and!; simpl.
    + rewrite len_concat_app. simpl. rewrite app_nil_r. lia.
    + lia.
    + destruct (join_docs (current_doc st) []) as [doc|] eqn:Hj; [|done].
      apply Forall_app. split; [done|]. apply Forall_singleton.
      eapply join_docs_within; [|done]. lia.
  - simpl. rewrite ?sep_len_nil. split_and!; simpl.
    + rewrite len_concat_app. simpl. rewrite app_nil_r. lia.
    + lia.
    + done.
Qed.

Lemma merge_fold_inv st splits :
  merge_inv st → Forall (λ d, len d < cs) splits →
  merge_inv (foldl (merge_step cfg []) st splits).
Proof.
  revert st. induction splits as [|d splits IH]; intros st Hst Hall.
  - done.
  - inversion_clear Hall. simpl. apply IH; [|done].
    by apply merge_step_inv.
Qed.

Lemma merge_splits_within splits :
  0 ≤ cs → Forall (λ d, len d < cs) splits →
  Forall within (merge_splits cfg [] splits).
Proof.
  intros Hcs Hall. unfold merge_splits.
  destruct (merge_fold_inv (MergeState [] [] 0) splits)
    as (Htot & Hle & Hdocs); [|done|].
  { split_and!; [done|simpl; lia|by constructor]. }
  destruct (join_docs _ []) as [doc|] eqn:Hj; [|done].
  apply Forall_app. split; [done|]. apply Forall_singleton.
  eapply join_docs_within; [|done]. lia.
Qed.

(** The pieces loop: with a recursive splitter whose output is within the
    size, or else with pieces all below the size, so is what it returns. *)
Lemma split_loop_within recurse final good splits :
  0 ≤ cs →
  Forall within final →
  Forall (λ d, len d < cs) good →
  match recurse with
  | Some f => ∀ s, Forall within (f s)
  | None => Forall (λ d, len d < cs) splits
  end →
  Forall within (split_loop cfg recurse final good splits).
Proof.
  intros Hcs. revert final good.
  induction splits as [|s splits IH]; intros final good Hfin Hgood Hrec;
    simpl.
  - destruct good; [done|]. apply Forall_app. split; [done|].
    by apply merge_splits_within.
  - destruct (len s <? cs) eqn:Hs.
    + apply IH; [done| |].
      * apply Forall_app. split; [done|]. apply Forall_singleton. lia.
      * destruct recurse; [done|]. by inversion Hrec.
    + assert (Forall within
                match good with
                | [] => final
                | _ :: _ => final ++ merge_splits cfg [] good
                end) as Hfin1.
      { destruct good; [done|]. apply Forall_app. split; [done|].
        by apply merge_splits_within. }
      destruct recurse as [f|].
      * apply IH; [|done|done]. apply Forall_app. by split.
      * inversion_clear Hrec. lia.
Qed.

Lemma split_chars_small text :
  1 < cs →
  Forall (λ d, len d < cs) (split_text_with_regex text []).
Proof.
  intros Hcs. unfold split_text_with_regex.
  apply Forall_forall. intros d [_ Hd]%list_elem_of_filter.
  apply list_elem_of_fmap in Hd as (c & -> & _). by rewrite len_cons.
Qed.

Lemma _split_text_cons s rest text :
  _split_text cfg (s :: rest) text
  = if decide (s = []) then
      split_loop cfg None [] [] (split_text_with_regex text s)
    else if contains s text then
      split_loop cfg
        (match rest with
         | [] => None
         | _ :: _ => Some (_split_text cfg rest)
         end)
        [] [] (split_text_with_regex text s)
    else
      match rest with
      | [] => split_loop cfg None [] [] (split_text_with_regex text s)
      | _ :: _ => _split_text cfg rest text
      end.
Proof. done. Qed.

(** With the empty string as last separator, every passage is within the
    chunk size. *)
Lemma _split_text_within seps text :
  1 < cs → last seps = Some [] →
  Forall within (_split_text cfg seps text).
Proof.
  intros Hcs. revert text.
  induction seps as [|s rest IH]; intros text Hlast; [done|].
  rewrite _split_text_cons. case_decide as Hs.
  { subst s. apply split_loop_within; [lia|done|done|].
    by apply split_chars_small. }
  destruct rest as [|s' rest]; [by simplify_eq/=|].
  rewrite last_cons_cons in Hlast.
  destruct (contains s text).
  - apply split_loop_within; [lia|done|done|]. intros t. by apply IH.
  - by apply IH.
Qed.
End merge_facts.

(** *** Splitting at a separator loses no character *)

Lemma startswith_app p t :
  startswith p t = true → ∃ t', t = p ++ t'.
Proof.
  revert t. induction p as [|a p IH]; intros t; simpl.
  - by exists t.
  - destruct t as [|b t]; [done|].
    intros [Hab Hp]%andb_true_iff. apply bool_decide_eq_true in Hab as ->.
    destruct (IH _ Hp) as [t' ->]. by exists t'.
Qed.

Lemma re_split_from_skip sep cur u t :
  re_split_from sep (length u) cur (u ++ t) = re_split_from sep 0 cur t.
Proof. induction u as [|c u IH]; simpl; [by destruct t | done]. Qed.

Lemma re_split_from_nonempty sep skip cur t :
  re_split_from sep skip cur t ≠ [].
Proof.
  revert skip cur. induction t as [|c t IH]; intros skip cur; simpl; [done|].
  destruct skip; [|done]. by destruct (startswith sep (c :: t)).
Qed.

Lemma join_cons sep p parts :
  parts ≠ [] → join sep (p :: parts) = p ++ sep ++ join sep parts.
Proof. by destruct parts. Qed.

Lemma re_split_from_join sep cur text :
  sep ≠ [] → join sep (re_split_from sep 0 cur text) = rev cur ++ text.
Proof.
  intros Hsep. remember (length text) as n eqn:Hn.
  revert text cur Hn. induction (lt_wf n) as [n _ IH]. intros text cur ->.
  destruct text as [|c t].
  - simpl. by rewrite app_nil_r.
  - simpl re_split_from. destruct (startswith sep (c :: t)) eqn:Hsw.
    + apply startswith_app in Hsw as [t2 Ht].
      destruct sep as [|c' sep']; [done|]. simpl in Ht. injection Ht as <- ->.
      replace (length (c :: sep') - 1)%nat with (length sep')
        by (simpl; lia).
      rewrite re_split_from_skip.
      rewrite join_cons by apply re_split_from_nonempty.
      rewrite (IH (length t2)) with (cur := []); [done| |done].
      simpl. rewrite length_app. lia.
    + rewrite (IH (length t)); [|simpl; lia|done].
      simpl. by rewrite <- app_assoc.
Qed.

Lemma join_concat sep first others :
  join sep (first :: others) = first ++ concat (map (λ s, sep ++ s) others).
Proof.
  revert first. induction others as [|o others IH]; intros first.
  - simpl. by rewrite app_nil_r.
  - rewrite join_cons by done. rewrite IH. simpl. by rewrite <- app_assoc.
Qed.

Lemma concat_filter_nonempty (l : list (list N)) :
  concat (filter (λ s, s ≠ []) l) = concat l.
Proof.
  induction l as [|x l IH]; [done|].
  rewrite filter_cons. case_decide as Hx; cbn [concat].
  - f_equal. apply IH.
  - subst x. apply IH.
Qed.

Lemma concat_singletons (text : str) : concat (map (λ c, [c]) text) = text.
Proof. induction text as [|c t IH]; simpl; by rewrite ?IH. Qed.

(** The pieces put together are the text again, and none is empty. *)
Lemma split_text_with_regex_concat text separator :
  concat (split_text_with_regex text separator) = text.
Proof.
  unfold split_text_with_regex. rewrite concat_filter_nonempty.
  destruct separator as [|c sep].
  - apply concat_singletons.
  - unfold re_split.
    pose proof (re_split_from_join (c :: sep) [] text) as Hj.
    destruct (re_split_from (c :: sep) 0 [] text) as [|first others] eqn:Hs.
    { by apply re_split_from_nonempty in Hs. }
    rewrite join_concat in Hj. simpl in Hj. by apply Hj.
Qed.

Lemma split_text_with_regex_nonempty text separator :
  Forall (λ s, s ≠ []) (split_text_with_regex text separator).
Proof.
  unfold split_text_with_regex. apply Forall_forall.
  by intros s [Hs _]%list_elem_of_filter.
Qed.

Section short_facts.
Context (cfg : config).
Abbreviation cs := (chunk_size cfg).

Lemma merge_fold_no_flush st splits :
  total st + len (concat splits) ≤ cs →
  foldl (merge_step cfg []) st splits
  = MergeState (docs st) (current_doc st ++ splits)
      (total st + len (concat splits)).
Proof.
  revert st. induction splits as [|d splits IH]; intros st Hle.
  - simpl. rewrite app_nil_r, len_nil, Z.add_0_r. by destruct st.
  - simpl in *. rewrite len_app in Hle.
    pose proof (len_nonneg (concat splits)).
    assert (merge_step cfg [] st d
            = MergeState (docs st) (current_doc st ++ [d])
                (total st + len d)) as ->.
    { unfold merge_step. rewrite !sep_len_nil.
      destruct (cs <? total st + len d + 0) eqn:Hbig; [lia|].
      f_equal. lia. }
    rewrite IH by (simpl; lia). simpl. rewrite <- app_assoc. simpl.
    rewrite len_app. f_equal. lia.
Qed.

Lemma merge_splits_one splits :
  len (concat splits) ≤ cs →
  merge_splits cfg [] splits = one_passage (concat splits).
Proof.
  intros Hle. unfold merge_splits.
  rewrite merge_fold_no_flush by (simpl; lia). simpl.
  unfold join_docs, one_passage. rewrite join_nil_sep.
  by case_decide.
Qed.

Lemma split_loop_all_small recurse final good splits :
  Forall (λ d, len d < cs) splits →
  split_loop cfg recurse final good splits
  = match good ++ splits with
    | [] => final
    | _ :: _ => final ++ merge_splits cfg [] (good ++ splits)
    end.
Proof.
  revert good. induction splits as [|s splits IH]; intros good Hall.
  - simpl. rewrite app_nil_r. by destruct good.
  - inversion_clear Hall as [|?? Hs Hall']. simpl.
    destruct (len s <? cs) eqn:Hlt; [|lia].
    rewrite IH by done. by rewrite <- app_assoc.
Qed.

Lemma big_piece_alone (splits : list str) (text : str) :
  concat splits = text →
  Forall (λ s, s ≠ []) splits →
  len text ≤ cs →
  ¬ Forall (λ d, len d < cs) splits →
  splits = [text] ∧ ¬ len text < cs.
Proof.
  intros Hcat Hne Hle Hbig.
  apply not_Forall_Exists in Hbig; [|apply _].
  apply Exists_exists in Hbig as (p & Hp & Hlen). simpl in Hlen.
  apply list_elem_of_split in Hp as (l1 & l2 & ->).
  rewrite concat_app in Hcat. simpl in Hcat. subst text.
  rewrite !len_app in Hle.
  pose proof (len_nonneg (concat l1)). pose proof (len_nonneg (concat l2)).
  assert (concat l1 = []) as H1 by (apply len_zero; lia).
  assert (concat l2 = []) as H2 by (apply len_zero; lia).
  apply Forall_app in Hne as [Hne1 Hne2].
  apply Forall_cons in Hne2 as [_ Hne2].
  destruct l1 as [|x l1].
  2:{ inversion_clear Hne1. simpl in H1. by apply app_eq_nil in H1 as [? _]. }
  destruct l2 as [|y l2].
  2:{ inversion_clear Hne2. simpl in H2. by apply app_eq_nil in H2 as [? _]. }
  simpl. rewrite app_nil_r. split; [done|]. simpl in *. lia.
Qed.

(** The pieces of a short text are merged into one document. *)
Lemma split_loop_short recurse (text : str) (splits : list str) :
  concat splits = text →
  len text ≤ cs →
  Forall (λ d, len d < cs) splits →
  split_loop cfg recurse [] [] splits = one_passage text.
Proof.
  intros Hcat Hle Hall. rewrite split_loop_all_small by done. simpl.
  destruct splits as [|s splits].
  - simpl in Hcat. by subst text.
  - rewrite merge_splits_one by (rewrite Hcat; lia). by rewrite Hcat.
Qed.

(** A text no longer than the chunk size comes out as one passage. *)
Lemma _split_text_short seps text :
  1 < cs → last seps = Some [] → len text ≤ cs →
  _split_text cfg seps text = one_passage text.
Proof.
  intros Hcs Hlast Hle. revert Hlast.
  induction seps as [|s rest IH]; intros Hlast; [done|].
  rewrite _split_text_cons. case_decide as Hs.
  { subst s. eapply split_loop_short; [|done|by apply split_chars_small].
    apply split_text_with_regex_concat. }
  destruct rest as [|s' rest]; [by simplify_eq/=|].
  rewrite last_cons_cons in Hlast.
  destruct (contains s text); [|by apply IH].
  destruct (decide (Forall (λ d, len d < cs)
                      (split_text_with_regex text s))) as [Hall|Hbig].
  - eapply split_loop_short; [|done|done].
    apply split_text_with_regex_concat.
  - eapply big_piece_alone in Hbig as [-> Hlen];
      [ | apply split_text_with_regex_concat
        | apply split_text_with_regex_nonempty | done ].
    simpl. destruct (len text <? cs) eqn:Hlt; [lia|].
    by apply IH.
Qed.
End short_facts.

Lemma text_splitter_last : last (separators text_splitter) = Some [].
Proof. done. Qed.

Lemma text_splitter_size : 1 < chunk_size text_splitter.
Proof. done. Qed.

(** A chunk is a passage of one page and carries that page's metadata. *)
Lemma split_documents_elem cfg pages chunk :
  chunk ∈ split_documents cfg pages ↔
  ∃ page, page ∈ pages
          ∧ metadata chunk = metadata page
          ∧ page_content chunk ∈ split_text cfg (page_content page).
Proof.
  unfold split_documents. rewrite list_elem_of_In, in_flat_map. split.
  - intros (page & Hpage & Hchunk).
    apply list_elem_of_In, list_elem_of_fmap in Hchunk as (c & -> & Hc).
    exists page. by rewrite list_elem_of_In.
  - intros (page & Hpage & Hmeta & Hc). exists page.
    rewrite <- !list_elem_of_In. split; [done|].
    apply list_elem_of_fmap. exists (page_content chunk). split; [|done].
    destruct chunk. simpl in *. by subst.
Qed.

Lemma split_documents_within pages :
  Forall (λ chunk, len (page_content chunk) ≤ CHUNK_SIZE)
    (split_documents text_splitter pages).
Proof.
  apply Forall_forall. intros chunk (page & _ & _ & Hc)%split_documents_elem.
  pose proof (_split_text_within text_splitter
                (separators text_splitter) (page_content page)
                text_splitter_size text_splitter_last) as Hall.
  rewrite Forall_forall in Hall. by apply Hall.
Qed.

(** The pages [PyPDFLoader] makes: page [i] holds the [i]-th text and the
    number [i]. *)
Lemma loaded_pages_elem path texts page :
  page ∈ loaded_pages path texts →
  ∃ i, texts !! i = Some (page_content page)
       ∧ metadata page !! lit "page" = Some (SInt (Z.of_nat i)).
Proof.
  unfold loaded_pages. intros (i & Hi)%list_elem_of_lookup.
  rewrite list_lookup_imap in Hi.
  destruct (texts !! i) as [text|] eqn:Ht; simplify_eq/=.
  exists i. split; [done|]. by rewrite lookup_insert_ne, lookup_singleton_eq.
Qed.

Section load_facts.
Context {Vector : Type} (svc : Services Vector).

Lemma load_and_chunk_pdf_ok path (w w' : World Vector) chunks :
  load_and_chunk_pdf svc path w = (inr chunks, w') →
  ∃ data texts,
    files w !! path = Some data
    ∧ pdf_extract svc data = inr texts
    ∧ chunks = pdf_chunks path texts.
Proof.
  unfold load_and_chunk_pdf, PyPDFLoader_load.
  unfold mbind, M_bind, bind, get_world, lift, mret, M_ret, ret, raise.
  destruct (files w !! path) as [data|]; [|done].
  destruct (pdf_extract svc data) as [e|texts] eqn:Hx; [done|].
  intros [= <- <-]. by exists data, texts.
Qed.
End load_facts.

(** The splitter at work.  Words are kept whole and none is carried over
    when the last word alone exceeds the overlap; a text without separators
    is cut into runs of characters that overlap by 3. *)
Example split_words :
  split_text small_splitter (lit "hello world foo bar baz qux")
  = [lit "hello"; lit "world foo"; lit "bar baz"; lit "qux"].
Proof. by vm_compute. Qed.

Example split_letters :
  split_text small_splitter (lit "abcdefghijklmnopqrstuvwxyz")
  = [lit "abcdefghij"; lit "hijklmnopq"; lit "opqrstuvwx"; lit "vwxyz"].
Proof. by vm_compute. Qed.

(** The one-page resume of the examples is one passage, on page 0. *)
Example one_page_resume :
  pdf_chunks (lit "cv.pdf") (pages_of resume)
  = [Doc (lit "Skills: Python, SQL. Experience: 2 years as analyst.")
       {[ lit "source" := SStr (lit "cv.pdf"); lit "page" := SInt 0 ]}].
Proof. by vm_compute. Qed.

(** C6, as stated, fails.  A page of three words of 300 letters is cut into
    the three words, and the first two passages, of which the second is not
    the page's last, share no text: no string of 50 characters or more ends
    the first and starts the second. *)
Lemma adjacent_passages_without_overlap :
  page_content <$> pdf_chunks (lit "cv.pdf") [three_words]
  = [word 97; word 98; word 99]
  ∧ ¬ ∃ o : str, CHUNK_OVERLAP ≤ len o
                 ∧ o `suffix_of` word 97 ∧ o `prefix_of` word 98.
Proof.
  split; [by vm_compute|].
  intros (o & Hlen & [k1 H1] & [k2 H2]).
  destruct o as [|c o]; [by vm_compute in Hlen|].
  assert (c = 98%N) as -> by (by injection H2).
  assert (98%N ∈ word 97) as Hin.
  { rewrite H1. apply elem_of_app. right. by left. }
  by apply elem_of_replicate in Hin as [? _].
Qed.

(** C6, amended.  Every passage [load_and_chunk_pdf] returns is at most
    [CHUNK_SIZE] characters long. *)
Theorem chunks_within_chunk_size {Vector : Type} (svc : Services Vector)
    (pdf_path : str) (w : World Vector) :
  match (load_and_chunk_pdf svc pdf_path w).1 with
  | inr chunks =>
      Forall (λ chunk, len (page_content chunk) ≤ CHUNK_SIZE) chunks
  | inl _ => True
  end.
Proof.
  destruct (load_and_chunk_pdf svc pdf_path w) as [[e|chunks] w'] eqn:H;
    [done|].
  apply load_and_chunk_pdf_ok in H as (data & texts & _ & _ & ->).
  apply split_documents_within.
Qed.

(** C7, as stated, fails.  An empty page, whose length is within the chunk
    size, yields no passage; a page with white space at its ends yields a
    passage that is not the page's text. *)
Lemma short_page_not_kept_as_is :
  pdf_chunks (lit "cv.pdf") [[]] = []
  ∧ page_content <$> pdf_chunks (lit "cv.pdf") [padded]
    = [lit "Skills: Python, SQL."]
  ∧ len padded ≤ CHUNK_SIZE
  ∧ padded ≠ lit "Skills: Python, SQL.".
Proof. split_and!; by vm_compute. Qed.

(** C7, amended.  A page whose text is at most [CHUNK_SIZE] characters long
    yields no passage when nothing but white space is in it, and otherwise
    exactly one passage: the text without the white space at its ends, with
    the page's metadata. *)
Theorem short_page_one_passage (page : Document) :
  len (page_content page) ≤ CHUNK_SIZE →
  split_documents text_splitter [page]
  = if decide (strip (page_content page) = []) then []
    else [Doc (strip (page_content page)) (metadata page)].
Proof.
  intros Hlen. unfold split_documents. simpl. rewrite app_nil_r.
  unfold split_text.
  rewrite (_split_text_short text_splitter) by done.
  unfold one_passage. by case_decide.
Qed.

Lemma short_page_one_passage_witness :
  split_documents text_splitter [Doc padded ∅]
  = if decide (strip (page_content (Doc padded ∅)) = []) then []
    else [Doc (strip (page_content (Doc padded ∅)))
            (metadata (Doc padded ∅))].
Proof. apply (short_page_one_passage (Doc padded ∅)). by vm_compute. Defined.

(** C8.  A passage that [load_and_chunk_pdf] returns is a passage of one
    page of the file and its [page] metadata is that page's index; when such
    a passage is among the documents a chain retrieved, the source
    [answer_with_rag] reports for it has the passage's text and that same
    page index. *)
Theorem page_index_round_trip {Vector : Type} (svc : Services Vector)
    (pdf_path : str) (w w' : World Vector) (chunks : list Document)
    (n : nat) (chunk : Document)
    (rag_chain : RetrievalQA Vector) (question : str) (w1 w2 : World Vector)
    (r : RagAnswer) (d : gmap str object) (docs : list Document) (j : nat) :
  load_and_chunk_pdf svc pdf_path w = (inr chunks, w') →
  chunks !! n = Some chunk →
  answer_with_rag rag_chain question w1 = (inr r, w2) →
  invoke rag_chain question w1 = (inr d, w2) →
  d !! lit "source_documents" = Some (ODocs docs) →
  docs !! j = Some chunk →
  ∃ data texts i text,
    files w !! pdf_path = Some data
    ∧ pdf_extract svc data = inr texts
    ∧ texts !! i = Some text
    ∧ page_content chunk ∈ split_text text_splitter text
    ∧ metadata chunk !! lit "page" = Some (SInt (Z.of_nat i))
    ∧ sources r !! j
      = Some (MkSource (page_content chunk) (SInt (Z.of_nat i))).
Proof.
  intros Hload Hn Hans Hinv Hd Hj.
  apply load_and_chunk_pdf_ok in Hload as (data & texts & Hf & Hx & ->).
  apply list_elem_of_lookup_2, split_documents_elem in Hn
    as (page & Hpage & Hmeta & Hc).
  apply loaded_pages_elem in Hpage as (i & Hi & Hp).
  exists data, texts, i, (page_content page).
  rewrite Hmeta. split_and!; try done.
  apply answer_with_rag_ok in Hans as (d' & sd & Hinv' & _ & Hsd & Hss).
  assert (d' = d) as -> by congruence.
  assert (sd = ODocs docs) as -> by congruence.
  unfold sources_of, mret, M_ret, ret in Hss. injection Hss as <-.
  rewrite list_lookup_fmap, Hj. simpl. by rewrite Hmeta, Hp.
Qed.

Lemma page_index_round_trip_witness :
  ∃ data texts i text,
    files desk !! lit "cv.pdf" = Some data
    ∧ pdf_extract services data = inr texts
    ∧ texts !! i = Some text
    ∧ page_content (Doc (Byte.to_N <$> resume)
                      {[ lit "source" := SStr (lit "cv.pdf");
                         lit "page" := SInt 0 ]})
        ∈ split_text text_splitter text
    ∧ metadata (Doc (Byte.to_N <$> resume)
                  {[ lit "source" := SStr (lit "cv.pdf");
                     lit "page" := SInt 0 ]}) !! lit "page"
      = Some (SInt (Z.of_nat i))
    ∧ sources (MkRagAnswer (OStr (lit "Python and SQL."))
                 [MkSource (Byte.to_N <$> resume) (SInt 0)]) !! 0%nat
      = Some (MkSource
                (page_content (Doc (Byte.to_N <$> resume)
                                 {[ lit "source" := SStr (lit "cv.pdf");
                                    lit "page" := SInt 0 ]}))
                (SInt (Z.of_nat i))).
Proof.
  apply (page_index_round_trip services (lit "cv.pdf") desk desk
           (pdf_chunks (lit "cv.pdf") (pages_of resume)) 0
           _ resume_chain (lit "What skills are listed?") desk desk
           _ (reply (pdf_chunks (lit "cv.pdf") (pages_of resume))
                (lit "What skills are listed?"))
           (pdf_chunks (lit "cv.pdf") (pages_of resume)) 0);
    by vm_compute.
Defined.

Lemma answer_with_rag_sources_witness :
  length (sources (MkRagAnswer (OStr (lit "Python and SQL."))
                     [MkSource (lit "Skills: Python, SQL.") (SInt 2);
                      MkSource (lit "Experience: 2 years as analyst.")
                        (SInt 0)]))
  = length [passage_a; passage_b]
  ∧ ∀ i doc, [passage_a; passage_b] !! i = Some doc →
      ∃ s, sources (MkRagAnswer (OStr (lit "Python and SQL."))
                      [MkSource (lit "Skills: Python, SQL.") (SInt 2);
                       MkSource (lit "Experience: 2 years as analyst.")
                         (SInt 0)]) !! i = Some s
           ∧ src_content s = page_content doc
           ∧ src_page s = match metadata doc !! lit "page" with
                          | Some p => p
                          | None => SInt 0
                          end.
Proof.
  apply (answer_with_rag_sources canned_chain (lit "What skills are listed?")
           nothing nothing _
           (reply [passage_a; passage_b] (lit "What skills are listed?"))
           [passage_a; passage_b]); by vm_compute.
Defined.

Section store_facts.
Context {Vector : Type} (svc : Services Vector).
Implicit Types w : World Vector.

Lemma zip_with_entry_documents (vectors : list Vector)
    (documents : list Document) :
  length vectors = length documents →
  e_document <$> zip_with MkEntry vectors documents = documents.
Proof.
  revert documents. induction vectors as [|v vectors IH];
    intros [|doc documents] Hlen; simplify_eq/=; [done|].
  by rewrite IH.
Qed.

(** A successful build adds one record per chunk, after the records the
    collection already held. *)
Lemma create_vector_store_ok key chunks w store w' :
  create_vector_store svc key chunks w = (inr store, w') →
  ∃ added,
    e_document <$> added = chunks
    ∧ collections w' !! (CHROMA_PERSIST_DIR, COLLECTION_NAME)
      = Some (default []
                (collections w !! (CHROMA_PERSIST_DIR, COLLECTION_NAME))
                ++ added)
    ∧ store = Handle COLLECTION_NAME
                (OEmbeddings (Embeddings key (lit "text-embedding-ada-002")))
                CHROMA_PERSIST_DIR.
Proof.
  unfold create_vector_store, OpenAIEmbeddings_new.
  unfold Chroma_from_documents, Chroma_new, Chroma_add_texts.
  unfold mbind, M_bind, bind, get_world, lift, modify, mret, M_ret, ret,
    raise.
  destruct (client_init svc key (environ w)) as [e|[]]; [done|]. simpl.
  destruct (embed_documents svc _ _) as [e|vectors]; [done|].
  case_decide as Hempty; [done|].
  case_decide as Hlen; [|done]. intros [= <- <-].
  exists (zip_with MkEntry vectors chunks).
  split; [by apply zip_with_entry_documents|]. split; [|done]. simpl.
  rewrite lookup_insert_eq. do 2 f_equal.
  destruct (collections w !! _) eqn:Hk; simpl.
  - by rewrite Hk.
  - by rewrite lookup_insert_eq.
Qed.

(** A query for at least as many records as the collection holds returns
    them all. *)
Lemma query_collection_all entries q n :
  (length entries ≤ n)%nat →
  query_collection svc entries q n ≡ₚ entries.
Proof.
  intros Hn. unfold query_collection.
  rewrite take_ge by (by rewrite merge_sort_Permutation).
  apply merge_sort_Permutation.
Qed.
End store_facts.

(** Two builds under the same name, evaluated.  Build the index from one
    passage, then again from another: a search through the second handle
    returns the passage of the first build too, which is not in the second
    set. *)
Lemma rebuild_keeps_first_build :
  create_vector_store services api_key first_set nothing
  = (inr resume_store, after_first)
  ∧ create_vector_store services api_key second_set after_first
    = (inr resume_store, after_second)
  ∧ Chroma_similarity_search services resume_store (lit "alpha") 4
      after_second
    = (inr [Doc (lit "alpha") ∅; Doc (lit "omega!") ∅], after_second)
  ∧ Doc (lit "alpha") ∅ ∈ first_set
  ∧ Doc (lit "alpha") ∅ ∉ second_set.
Proof.
  split; [by vm_compute|]. split; [by vm_compute|].
  split; [by vm_compute|]. split.
  - by left.
  - by intros [=]%list_elem_of_singleton.
Qed.

(** *** From upload to answer *)

Section end_to_end.
Context {Vector : Type} (svc : Services Vector).
Implicit Types w : World Vector.

(** What a search returns are documents of records of the collection. *)
Lemma Chroma_similarity_search_ok store query k w docs w' :
  Chroma_similarity_search svc store query k w = (inr docs, w') →
  w' = w
  ∧ ∃ entries,
      collections w !! (persist_directory store, collection_name store)
      = Some entries
      ∧ docs ⊆ e_document <$> entries.
Proof.
  unfold Chroma_similarity_search.
  destruct (embedding_function store) as [e| | |]; try done.
  unfold mbind, M_bind, bind, lift, get_world, mret, M_ret, ret, raise.
  destruct (embed_query svc e query) as [err|q]; [done|].
  destruct (collections w !! _) as [entries|] eqn:Hk; [|done].
  intros [= <- <-]. split; [done|]. exists entries. split; [done|].
  intros doc (entry & -> & Hin)%list_elem_of_fmap.
  apply list_elem_of_fmap. exists entry. split; [done|].
  unfold query_collection in Hin. apply elem_of_take in Hin as (i & Hi & _).
  apply list_elem_of_lookup_2 in Hi.
  by rewrite merge_sort_Permutation in Hi.
Qed.

(** What a successful upload did. *)
Lemma process_uploaded_pdf_ok key uploaded_file w rag_chain n flag msg w1 :
  process_uploaded_pdf svc key uploaded_file w
  = (inr (Some rag_chain, n, flag, msg), w1) →
  ∃ texts store w',
    pdf_extract svc uploaded_file = inr texts
    ∧ create_vector_store svc key
        (pdf_chunks (tmp_name svc (files w)) texts)
        (set_files <[tmp_name svc (files w) := uploaded_file]> w)
      = (inr store, w')
    ∧ rag_chain
      = RetrievalQA_from_chain_type svc (Chat key (lit "gpt-3.5-turbo") 0)
          store 4 PROMPT
    ∧ w1 = set_files (delete (tmp_name svc (files w))) w'.
Proof.
  set (path := tmp_name svc (files w)).
  set (w0 := set_files <[path := uploaded_file]> w).
  unfold process_uploaded_pdf, NamedTemporaryFile_write.
  unfold mbind at 1 2 3, M_bind, bind, get_world, modify, mret, M_ret, ret.
  simpl. fold path. fold w0.
  unfold try_finally, try_except, mbind, M_bind, bind.
  rewrite (load_and_chunk_pdf_eq svc path w0 uploaded_file)
    by apply lookup_insert_eq.
  destruct (pdf_extract svc uploaded_file) as [e|texts].
  { destruct (is_Exception (exn_class e));
      destruct (os_unlink path w0) as [[?|?] ?]; intros; simplify_eq. }
  destruct (create_vector_store svc key (pdf_chunks path texts) w0)
    as [[e|store] w'] eqn:Hc.
  { destruct (is_Exception (exn_class e));
      destruct (os_unlink path w') as [[?|?] ?]; intros; simplify_eq. }
  unfold build_rag_chain, ChatOpenAI_new.
  unfold mbind, M_bind, bind, get_world, lift, mret, M_ret, ret.
  destruct (client_init svc key (environ w')) as [e|[]].
  { destruct (is_Exception (exn_class e));
      destruct (os_unlink path w') as [[?|?] ?]; intros; simplify_eq. }
  unfold os_unlink, mbind, M_bind, bind, get_world, modify, raise.
  destruct (files w' !! path); intros; simplify_eq.
  by exists texts, store, w'.
Qed.

(** Upload a PDF into a collection that holds nothing yet and ask a
    question: every source reported is a passage of a page of that PDF,
    with that page's index. *)
Lemma fresh_upload_sources key uploaded_file w rag_chain n flag msg w1
    question r w2 :
  default [] (collections w !! (CHROMA_PERSIST_DIR, COLLECTION_NAME)) = [] →
  process_uploaded_pdf svc key uploaded_file w
  = (inr (Some rag_chain, n, flag, msg), w1) →
  answer_with_rag rag_chain question w1 = (inr r, w2) →
  ∃ texts,
    pdf_extract svc uploaded_file = inr texts
    ∧ Forall (λ s, ∃ i text,
                texts !! i = Some text
                ∧ src_page s = SInt (Z.of_nat i)
                ∧ src_content s ∈ split_text text_splitter text)
        (sources r).
Proof.
  intros Hfresh (texts & store & w' & Hx & Hc & -> & ->)%process_uploaded_pdf_ok
    (d & sd & Hinv & _ & Hsd & Hss)%answer_with_rag_ok.
  exists texts. split; [done|].
  apply create_vector_store_ok in Hc as (added & Hdocs & Hcoll & ->).
  simpl in Hinv. unfold mbind, M_bind, bind in Hinv.
  destruct (Chroma_similarity_search _ _ _ _ _) as [[e|docs] w3] eqn:Hs;
    [done|].
  apply Chroma_similarity_search_ok in Hs as (-> & entries & He & Hsub).
  simpl in He. rewrite Hcoll in He. unfold set_files in He. simpl in He.
  rewrite Hfresh in He.
  simplify_eq/=. rewrite Hdocs in Hsub.
  unfold lift in Hinv. destruct (chat_completion _ _ _) as [e|response];
    [done|].
  unfold mret, M_ret, ret in Hinv. injection Hinv as <- <-.
  rewrite lookup_insert_ne, lookup_insert_ne, lookup_singleton_eq in Hsd
    by done.
  injection Hsd as <-.
  unfold sources_of, mret, M_ret, ret in Hss. injection Hss as <-.
  apply Forall_fmap, Forall_forall. intros doc Hdoc. simpl.
  apply Hsub, split_documents_elem in Hdoc as (page & Hpage & Hmeta & Hcont).
  apply loaded_pages_elem in Hpage as (i & Hi & Hp).
  exists i, (page_content page). by rewrite Hmeta, Hp.
Qed.
End end_to_end.

(** The prompt of [answer_without_rag] says that the resume is not at hand,
    and nothing but the question varies in it. *)
Lemma baseline_prompt_states_no_access (question : str) :
  ∃ after,
    baseline_prompt question
    = lit "Answer this question about a resume: " ++ question ++ [LF; LF]
      ++ lit "    Note: You don't have access to the actual resume content."
      ++ after.
Proof. by eexists. Qed.

(** *** Building twice under the same name *)

Section rebuild_facts.
Context {Vector : Type} (svc : Services Vector).
Implicit Types w : World Vector.

(** A successful build had at least one chunk, and leaves in the collection
    the records it held and one record per chunk, each with the vector the
    embedding service gave for its text. *)
Lemma create_vector_store_grows key chunks w store w' :
  create_vector_store svc key chunks w = (inr store, w') →
  chunks ≠ []
  ∧ store = Handle COLLECTION_NAME
              (OEmbeddings (Embeddings key (lit "text-embedding-ada-002")))
              CHROMA_PERSIST_DIR
  ∧ ∃ vectors,
      embed_documents svc (Embeddings key (lit "text-embedding-ada-002"))
        (page_content <$> chunks) = inr vectors
      ∧ length vectors = length chunks
      ∧ collections w' !! (CHROMA_PERSIST_DIR, COLLECTION_NAME)
        = Some (default []
                  (collections w !! (CHROMA_PERSIST_DIR, COLLECTION_NAME))
                ++ zip_with MkEntry vectors chunks)
      ∧ delete (CHROMA_PERSIST_DIR, COLLECTION_NAME) (collections w')
        = delete (CHROMA_PERSIST_DIR, COLLECTION_NAME) (collections w)
      ∧ environ w' = environ w.
Proof.
  unfold create_vector_store, OpenAIEmbeddings_new.
  unfold Chroma_from_documents, Chroma_new, Chroma_add_texts.
  unfold mbind, M_bind, bind, get_world, lift, modify, mret, M_ret, ret,
    raise.
  destruct (client_init svc key (environ w)) as [e|[]]; [done|]. simpl.
  destruct (embed_documents svc _ _) as [e|vectors] eqn:He; [done|].
  case_decide as Hempty; [done|].
  case_decide as Hlen; [|done]. intros [= <- <-].
  split; [by intros ->|]. split; [done|].
  exists vectors. simpl. split_and!; try done.
  - rewrite lookup_insert_eq. do 2 f_equal.
    destruct (collections w !! _) eqn:Hk; simpl.
    + by rewrite Hk.
    + by rewrite lookup_insert_eq.
  - rewrite delete_insert_eq.
    destruct (collections w !! (CHROMA_PERSIST_DIR, COLLECTION_NAME));
      [done|]. by rewrite delete_insert_eq.
Qed.

(** The documents a search returns, by number and by origin. *)
Lemma Chroma_similarity_search_docs store query k w docs w' :
  Chroma_similarity_search svc store query k w = (inr docs, w') →
  ∃ entries,
    collections w !! (persist_directory store, collection_name store)
    = Some entries
    ∧ length docs = (k `min` length entries)%nat
    ∧ docs ⊆ e_document <$> entries
    ∧ ((length entries ≤ k)%nat → docs ≡ₚ e_document <$> entries).
Proof.
  intros Hs.
  destruct (Chroma_similarity_search_ok svc _ _ _ _ _ _ Hs)
    as (_ & entries & Hk & Hsub).
  exists entries. split; [done|]. revert Hs.
  unfold Chroma_similarity_search.
  destruct (embedding_function store) as [e| | |]; try done.
  unfold mbind, M_bind, bind, lift, get_world, mret, M_ret, ret, raise.
  destruct (embed_query svc e query) as [err|q]; [done|].
  rewrite Hk. intros [= <-]. split_and!.
  - unfold query_collection.
    by rewrite length_fmap, length_take, merge_sort_Permutation.
  - done.
  - intros Hle. by rewrite query_collection_all.
Qed.
End rebuild_facts.

(** C1.  The code does not do what the claim says.  A second build under
    the same collection name succeeds only with at least one chunk, as the
    first did, and leaves in the collection the records it held before the
    two builds and one record for every chunk of the first build and of the
    second: nothing of the first build is removed.  The search of the chain
    built on the second handle, for the 4 nearest records, draws on all of
    them: it returns [min(4, number of records)] documents of the
    collection, and when the collection holds at most 4 records every chunk
    of the first build is among them. *)
Theorem rebuild_keeps_earlier_records {Vector : Type}
    (svc : Services Vector) (key1 key2 : option str)
    (chunks1 chunks2 : list Document) (w w1 w2 : World Vector)
    (store1 store2 : Chroma) :
  create_vector_store svc key1 chunks1 w = (inr store1, w1) →
  create_vector_store svc key2 chunks2 w1 = (inr store2, w2) →
  chunks1 ≠ []
  ∧ ∃ entries : list (Entry Vector),
      collections w2 !! (persist_directory store2, collection_name store2)
      = Some entries
      ∧ e_document <$> entries
        ≡ₚ (e_document <$>
              default []
                (collections w !! (CHROMA_PERSIST_DIR, COLLECTION_NAME)))
           ++ chunks1 ++ chunks2
      ∧ ∀ query docs w3,
          Chroma_similarity_search svc store2 query 4 w2 = (inr docs, w3) →
          length docs = (4 `min` length entries)%nat
          ∧ docs ⊆ e_document <$> entries
          ∧ ((length entries ≤ 4)%nat → chunks1 ⊆ docs).
Proof.
  intros (Hne1 & _ & vectors1 & _ & Hlen1 & Hc1 & _)%create_vector_store_grows
         (_ & -> & vectors2 & _ & Hlen2 & Hc2 & _)%create_vector_store_grows.
  rewrite Hc1 in Hc2. simpl in Hc2.
  assert (e_document <$>
            ((default []
                (collections w !! (CHROMA_PERSIST_DIR, COLLECTION_NAME))
              ++ zip_with MkEntry vectors1 chunks1)
             ++ zip_with MkEntry vectors2 chunks2)
          = (e_document <$>
               default []
                 (collections w !! (CHROMA_PERSIST_DIR, COLLECTION_NAME)))
            ++ chunks1 ++ chunks2) as Hdocs.
  { rewrite !fmap_app, !zip_with_entry_documents by done.
    by rewrite <- app_assoc. }
  split; [done|]. eexists. split; [exact Hc2|].
  split; [by rewrite Hdocs|].
  intros query docs w3 Hs.
  apply Chroma_similarity_search_docs in Hs
    as (entries & Hk & Hlen & Hsub & Hall).
  simpl in Hk.
  rewrite Hc2 in Hk. injection Hk as <-.
  split; [exact Hlen|]. split; [exact Hsub|]. intros Hle chunk Hin.
  rewrite (Hall Hle), Hdocs. set_solver.
Qed.

(** The two builds and the search of the example: the search through the
    second handle returns the passage of the first build. *)
Lemma rebuild_keeps_earlier_records_witness :
  first_set ≠ []
  ∧ ∃ entries : list (Entry Z),
      collections after_second
        !! (persist_directory resume_store, collection_name resume_store)
      = Some entries
      ∧ e_document <$> entries
        ≡ₚ (e_document <$>
              default []
                (collections nothing
                   !! (CHROMA_PERSIST_DIR, COLLECTION_NAME)))
           ++ first_set ++ second_set
      ∧ ∀ query docs w3,
          Chroma_similarity_search services resume_store query 4
            after_second = (inr docs, w3) →
          length docs = (4 `min` length entries)%nat
          ∧ docs ⊆ e_document <$> entries
          ∧ ((length entries ≤ 4)%nat → first_set ⊆ docs).
Proof.
  apply (rebuild_keeps_earlier_records services api_key api_key first_set
           second_set nothing after_first after_second resume_store
           resume_store); by vm_compute.
Defined.

(** * Further properties of the pipeline *)

Import Notions Cases.

(** *** Passages are pieces of the page, without white space at the ends *)

Lemma part_of_refl s : part_of s s.
Proof. exists [], []. by rewrite app_nil_r. Qed.

Lemma part_of_trans s t u : part_of s t → part_of t u → part_of s u.
Proof.
  intros (a & b & ->) (c & d & ->). exists (c ++ a), (b ++ d).
  by rewrite <- !app_assoc.
Qed.

Lemma part_of_app_l s a t : part_of s t → part_of s (a ++ t).
Proof. intros (c & d & ->). exists (a ++ c), d. by rewrite <- !app_assoc. Qed.

Lemma part_of_app_r s t b : part_of s t → part_of s (t ++ b).
Proof. intros (c & d & ->). exists c, (d ++ b). by rewrite <- !app_assoc. Qed.

Lemma lstrip_suffix s : lstrip s `suffix_of` s.
Proof.
  induction s as [|c s IH]; simpl; [done|].
  destruct (isspace c); [by apply suffix_cons_r | done].
Qed.

Lemma rstrip_prefix s : rstrip s `prefix_of` s.
Proof.
  unfold rstrip. destruct (lstrip_suffix (rev s)) as [k Hk].
  exists (rev k). apply (f_equal (@rev N)) in Hk.
  by rewrite rev_app_distr, rev_involutive in Hk.
Qed.

Lemma strip_part_of s : part_of (strip s) s.
Proof.
  unfold strip. destruct (rstrip_prefix (lstrip s)) as [b Hb].
  destruct (lstrip_suffix s) as [a Ha].
  exists a, b. by rewrite <- Hb.
Qed.

Lemma lstrip_head s c : head (lstrip s) = Some c → isspace c = false.
Proof.
  induction s as [|d s IH]; simpl; [done|].
  destruct (isspace d) eqn:Hd; [done|]. simpl. by intros [= <-].
Qed.

Lemma last_rev_head (s : str) : last (rev s) = head s.
Proof. destruct s as [|c s]; [done|]. simpl. by rewrite last_snoc. Qed.

Lemma rstrip_last s c : last (rstrip s) = Some c → isspace c = false.
Proof.
  unfold rstrip. rewrite last_rev_head. apply lstrip_head.
Qed.

Lemma prefix_head (s t : str) c :
  s `prefix_of` t → head s = Some c → head t = Some c.
Proof. intros [k ->]. by destruct s. Qed.

(** What [strip] leaves, when it leaves something, is stripped. *)
Lemma strip_stripped s : strip s ≠ [] → stripped (strip s).
Proof.
  intros Hne. split; [done|]. split.
  - intros c Hc. unfold strip in Hc.
    apply (lstrip_head s), (prefix_head _ _ _ (rstrip_prefix _) Hc).
  - intros c. apply rstrip_last.
Qed.

Lemma join_docs_made parts doc :
  join_docs parts [] = Some doc →
  stripped doc ∧ part_of doc (concat parts).
Proof.
  unfold join_docs. rewrite join_nil_sep. case_decide as Hne; [done|].
  intros [= <-]. split; [by apply strip_stripped | apply strip_part_of].
Qed.

Section made_facts.
Context (cfg : config).

Lemma pop_front_suffix _len cur tot :
  (pop_front cfg [] _len cur tot).1 `suffix_of` cur.
Proof.
  revert tot. induction cur as [|d0 rest IH]; intros tot; simpl; [done|].
  destruct (must_pop cfg [] tot _len (d0 :: rest)); [|done].
  by apply suffix_cons_r.
Qed.

Lemma part_of_concat_suffix (l1 l2 : list str) (s : str) :
  l1 `suffix_of` l2 → part_of s (concat l1) → part_of s (concat l2).
Proof.
  intros [k ->] Hs. rewrite concat_app. by apply part_of_app_l.
Qed.

Lemma merge_step_made st processed d :
  made_inv st processed →
  made_inv (merge_step cfg [] st d) (processed ++ [d]).
Proof.
  intros [Hsuf Hdocs].
  assert (Forall (λ doc, stripped doc ∧ part_of doc (concat (processed ++ [d])))
            (docs st)) as Hdocs'.
  { eapply Forall_impl; [done|]. intros doc [? ?]. split; [done|].
    rewrite concat_app. by apply part_of_app_r. }
  unfold merge_step.
  destruct (chunk_size cfg <? _) eqn:Hbig; [|split; [by apply suffix_app|done]].
  destruct (current_doc st) as [|d0 rest] eqn:Hcur.
  { split; simpl; [|done]. rewrite Hcur. by apply suffix_app. }
  rewrite <- Hcur in *.
  pose proof (pop_front_suffix (len d) (current_doc st) (total st)) as Hpop.
  destruct (pop_front cfg [] (len d) (current_doc st) (total st))
    as [cur' tot']. simpl in *. split.
  - apply suffix_app. by etrans.
  - destruct (join_docs (current_doc st) []) as [doc|] eqn:Hj; [|done].
    apply Forall_app. split; [done|]. apply Forall_singleton.
    apply join_docs_made in Hj as [? Hpart]. split; [done|].
    rewrite concat_app. apply part_of_app_r.
    by eapply part_of_concat_suffix.
Qed.

Lemma merge_fold_made st processed splits :
  made_inv st processed →
  made_inv (foldl (merge_step cfg []) st splits) (processed ++ splits).
Proof.
  revert st processed. induction splits as [|d splits IH];
    intros st processed Hinv; simpl.
  - by rewrite app_nil_r.
  - rewrite cons_middle, app_assoc. apply IH. by apply merge_step_made.
Qed.

(** Every document [_merge_splits] makes is a stripped part of what the
    pieces spell. *)
Lemma merge_splits_made splits :
  Forall (λ doc, stripped doc ∧ part_of doc (concat splits))
    (merge_splits cfg [] splits).
Proof.
  unfold merge_splits.
  destruct (merge_fold_made (MergeState [] [] 0) [] splits) as [Hsuf Hdocs].
  { split; [done | by constructor]. }
  simpl in *. destruct (join_docs _ []) as [doc|] eqn:Hj; [|done].
  apply Forall_app. split; [done|]. apply Forall_singleton.
  apply join_docs_made in Hj as [? Hpart]. split; [done|].
  by eapply part_of_concat_suffix.
Qed.

Lemma part_of_concat_mid (s : str) (l1 l2 : list str) :
  part_of s (concat (l1 ++ s :: l2)).
Proof.
  exists (concat l1), (concat l2). by rewrite concat_app.
Qed.

(** The pieces loop makes stripped parts of the text, when what it is given
    spells a part of the text. *)
Lemma split_loop_made recurse final good splits (text : str) :
  Forall (λ doc, stripped doc ∧ part_of doc text) final →
  part_of (concat (good ++ splits)) text →
  match recurse with
  | Some f => ∀ s, Forall (λ doc, stripped doc ∧ part_of doc s) (f s)
  | None => Forall (λ d, len d < chunk_size cfg) splits
  end →
  Forall (λ doc, stripped doc ∧ part_of doc text)
    (split_loop cfg recurse final good splits).
Proof.
  assert (∀ good rest, part_of (concat (good ++ rest)) text →
          Forall (λ doc, stripped doc ∧ part_of doc text)
            (merge_splits cfg [] good)) as Hmerge.
  { intros g rest Hpart. eapply Forall_impl; [apply merge_splits_made|].
    intros doc [? Hdoc]. split; [done|].
    eapply part_of_trans; [done|]. eapply part_of_trans; [|done].
    rewrite concat_app. apply part_of_app_r, part_of_refl. }
  revert final good. induction splits as [|s splits IH];
    intros final good Hfin Hpart Hrec; simpl.
  - destruct good; [done|]. apply Forall_app. split; [done|].
    by eapply Hmerge.
  - destruct (len s <? chunk_size cfg) eqn:Hs.
    + apply IH; [done| |].
      * by rewrite <- app_assoc.
      * destruct recurse; [done|]. by inversion Hrec.
    + assert (Forall (λ doc, stripped doc ∧ part_of doc text)
                match good with
                | [] => final
                | _ :: _ => final ++ merge_splits cfg [] good
                end) as Hfin1.
      { destruct good; [done|]. apply Forall_app. split; [done|].
        by eapply Hmerge. }
      assert (part_of (concat splits) text) as Hrest.
      { eapply part_of_trans; [|done].
        rewrite cons_middle, !app_assoc, concat_app.
        apply part_of_app_l, part_of_refl. }
      destruct recurse as [f|].
      * apply IH; [|exact Hrest|exact Hrec]. apply Forall_app.
        split; [done|].
        eapply Forall_impl; [apply (Hrec s)|]. intros doc [? Hdoc].
        split; [done|]. eapply part_of_trans; [exact Hdoc|].
        eapply part_of_trans; [|exact Hpart]. apply part_of_concat_mid.
      * inversion_clear Hrec. lia.
Qed.

(** With the empty string as last separator, every passage of a text is a
    stripped part of it. *)
Lemma _split_text_made seps text :
  1 < chunk_size cfg → last seps = Some [] →
  Forall (λ doc, stripped doc ∧ part_of doc text) (_split_text cfg seps text).
Proof.
  intros Hcs. revert text.
  induction seps as [|s rest IH]; intros text Hlast; [done|].
  assert (part_of (concat ([] ++ split_text_with_regex text s)) text).
  { simpl. rewrite split_text_with_regex_concat. apply part_of_refl. }
  rewrite _split_text_cons. case_decide as Hs.
  { subst s. apply split_loop_made; [done|done|].
    by apply split_chars_small. }
  destruct rest as [|s' rest]; [by simplify_eq/=|].
  rewrite last_cons_cons in Hlast.
  destruct (contains s text).
  - apply split_loop_made; [done|done|]. intros t. by apply IH.
  - by apply IH.
Qed.
End made_facts.

Section passage_facts.
Context {Vector : Type} (svc : Services Vector).

Lemma pdf_chunks_made path texts :
  Forall (λ chunk,
            stripped (page_content chunk)
            ∧ ∃ i text, texts !! i = Some text
                        ∧ page_of chunk = Some (SInt (Z.of_nat i))
                        ∧ part_of (page_content chunk) text)
    (pdf_chunks path texts).
Proof.
  apply Forall_forall.
  intros chunk (page & Hpage & Hmeta & Hc)%split_documents_elem.
  apply loaded_pages_elem in Hpage as (i & Hi & Hp).
  pose proof (_split_text_made text_splitter (separators text_splitter)
                (page_content page) text_splitter_size text_splitter_last)
    as Hall.
  rewrite Forall_forall in Hall. destruct (Hall _ Hc) as [Hs Hpart].
  split; [done|]. exists i, (page_content page).
  unfold page_of. by rewrite Hmeta.
Qed.
End passage_facts.

(** X1.  Every passage [load_and_chunk_pdf] returns is a contiguous part of
    the text of one page of the file, the page whose index its metadata
    gives: the splitter adds, reorders and rewrites nothing. *)
Theorem passages_are_parts_of_their_page {Vector : Type}
    (svc : Services Vector) (pdf_path : str) (w : World Vector) :
  match (load_and_chunk_pdf svc pdf_path w).1 with
  | inr chunks =>
      ∃ data texts,
        files w !! pdf_path = Some data
        ∧ pdf_extract svc data = inr texts
        ∧ Forall (λ chunk,
                    ∃ i text, texts !! i = Some text
                              ∧ page_of chunk = Some (SInt (Z.of_nat i))
                              ∧ part_of (page_content chunk) text)
            chunks
  | inl _ => True
  end.
Proof.
  destruct (load_and_chunk_pdf svc pdf_path w) as [[e|chunks] w'] eqn:H;
    [done|].
  apply load_and_chunk_pdf_ok in H as (data & texts & Hf & Hx & ->).
  exists data, texts. split; [done|]. split; [done|].
  eapply Forall_impl; [apply pdf_chunks_made|]. by intros chunk [_ ?].
Qed.

(** X2.  No passage [load_and_chunk_pdf] returns is empty, and none starts
    or ends with white space. *)
Theorem passages_are_stripped {Vector : Type}
    (svc : Services Vector) (pdf_path : str) (w : World Vector) :
  match (load_and_chunk_pdf svc pdf_path w).1 with
  | inr chunks => Forall (λ chunk, stripped (page_content chunk)) chunks
  | inl _ => True
  end.
Proof.
  destruct (load_and_chunk_pdf svc pdf_path w) as [[e|chunks] w'] eqn:H;
    [done|].
  apply load_and_chunk_pdf_ok in H as (data & texts & _ & _ & ->).
  eapply Forall_impl; [apply pdf_chunks_made|]. by intros chunk [? _].
Qed.

(** *** Passages come in page order *)

Lemma numbered_pages_sorted (f : nat → str → Document) (k : nat) texts :
  (∀ i t, page_of (f i t) = Some (SInt (Z.of_nat (k + i)))) →
  StronglySorted page_le (imap f texts)
  ∧ Forall (λ p, ∃ i, page_of p = Some (SInt (Z.of_nat i)) ∧ (k ≤ i)%nat)
      (imap f texts).
Proof.
  revert f k. induction texts as [|t texts IH]; intros f k Hf.
  { split; constructor. }
  rewrite imap_cons.
  destruct (IH (f ∘ S) (S k)) as [Hsorted Hall].
  { intros i t'. simpl. rewrite Hf. do 3 f_equal. lia. }
  split.
  - constructor; [done|]. eapply Forall_impl; [exact Hall|].
    intros p (i & Hp & Hi). exists (Z.of_nat (k + 0)), (Z.of_nat i).
    rewrite Hf. split; [done|]. split; [done|]. lia.
  - constructor.
    + exists (k + 0)%nat. rewrite Hf. split; [done|]. lia.
    + eapply Forall_impl; [exact Hall|]. intros p (i & Hp & Hi).
      exists i. split; [done|]. lia.
Qed.

Lemma loaded_pages_numbered path texts :
  StronglySorted page_le (loaded_pages path texts)
  ∧ Forall (λ p, ∃ i, page_of p = Some (SInt (Z.of_nat i)))
      (loaded_pages path texts).
Proof.
  destruct (numbered_pages_sorted
              (λ i text, Doc text {[ lit "source" := SStr path;
                                     lit "page" := SInt (Z.of_nat i) ]})
              0 texts) as [Hs Hall].
  { intros i t. unfold page_of. simpl.
    by rewrite lookup_insert_ne, lookup_singleton_eq. }
  split; [done|]. eapply Forall_impl; [exact Hall|].
  intros p (i & Hp & _). by exists i.
Qed.

Lemma page_le_same_metadata doc1 doc2 page1 page2 :
  metadata doc1 = metadata page1 → metadata doc2 = metadata page2 →
  page_le page1 page2 → page_le doc1 doc2.
Proof.
  unfold page_le, page_of. intros -> ->. done.
Qed.

(** Splitting keeps the order of the pages. *)
Lemma split_documents_sorted cfg pages :
  StronglySorted page_le pages →
  Forall (λ p, ∃ i, page_of p = Some (SInt (Z.of_nat i))) pages →
  StronglySorted page_le (split_documents cfg pages).
Proof.
  induction 1 as [|page pages Hs IH Hle]; intros Hnum; [constructor|].
  inversion_clear Hnum as [|?? [i Hi] Hnum'].
  change (split_documents cfg (page :: pages))
    with (map (λ chunk, Doc chunk (metadata page))
              (split_text cfg (page_content page))
          ++ split_documents cfg pages).
  apply StronglySorted_app_2.
  - intros d1 d2 (c1 & -> & _)%list_elem_of_fmap
      (p2 & Hp2 & Hm2 & _)%split_documents_elem.
    rewrite Forall_forall in Hle.
    eapply (page_le_same_metadata _ _ page p2); [done|done|].
    by apply Hle.
  - induction (split_text cfg (page_content page)) as [|c cs IHc];
      [constructor|].
    simpl. constructor; [exact IHc|]. apply Forall_forall.
    intros d (c' & -> & _)%list_elem_of_fmap.
    exists (Z.of_nat i), (Z.of_nat i). unfold page_of in *. simpl.
    by rewrite Hi.
  - by apply IH.
Qed.

(** X3.  The passages [load_and_chunk_pdf] returns come in page order: a
    passage is never followed, at any distance, by a passage of an earlier
    page. *)
Theorem passages_in_page_order {Vector : Type}
    (svc : Services Vector) (pdf_path : str) (w : World Vector) :
  match (load_and_chunk_pdf svc pdf_path w).1 with
  | inr chunks => StronglySorted page_le chunks
  | inl _ => True
  end.
Proof.
  destruct (load_and_chunk_pdf svc pdf_path w) as [[e|chunks] w'] eqn:H;
    [done|].
  apply load_and_chunk_pdf_ok in H as (data & texts & _ & _ & ->).
  destruct (loaded_pages_numbered pdf_path texts) as [Hs Hnum].
  by apply split_documents_sorted.
Qed.

(** *** Building the index and asking the chain *)

(** X4.  A successful [create_vector_store] was given at least one chunk,
    and adds exactly one record per chunk to the collection, each holding
    the chunk and the vector the embedding service returned for its text,
    to the records already there, of which none is replaced or lost; it
    changes no other collection and no environment variable. *)
Theorem create_vector_store_adds {Vector : Type} (svc : Services Vector)
    (OPENAI_API_KEY : option str) (chunks : list Document)
    (w w' : World Vector) (store : Chroma) :
  create_vector_store svc OPENAI_API_KEY chunks w = (inr store, w') →
  chunks ≠ []
  ∧ ∃ vectors entries,
      embed_documents svc
        (Embeddings OPENAI_API_KEY (lit "text-embedding-ada-002"))
        (page_content <$> chunks) = inr vectors
      ∧ length vectors = length chunks
      ∧ collections w' !! (CHROMA_PERSIST_DIR, COLLECTION_NAME)
        = Some entries
      ∧ entries
        ≡ₚ default []
             (collections w !! (CHROMA_PERSIST_DIR, COLLECTION_NAME))
           ++ zip_with MkEntry vectors chunks
      ∧ delete (CHROMA_PERSIST_DIR, COLLECTION_NAME) (collections w')
        = delete (CHROMA_PERSIST_DIR, COLLECTION_NAME) (collections w)
      ∧ environ w' = environ w.
Proof.
  intros (Hne & _ & vectors & He & Hlen & Hc & Hother & Henv)
           %create_vector_store_grows.
  split; [done|]. exists vectors. eexists. by split_and!.
Qed.

Lemma create_vector_store_adds_witness :
  first_set ≠ []
  ∧ ∃ vectors entries,
      embed_documents services
        (Embeddings api_key (lit "text-embedding-ada-002"))
        (page_content <$> first_set) = inr vectors
      ∧ length vectors = length first_set
      ∧ collections after_first !! (CHROMA_PERSIST_DIR, COLLECTION_NAME)
        = Some entries
      ∧ entries
        ≡ₚ default []
             (collections nothing !! (CHROMA_PERSIST_DIR, COLLECTION_NAME))
           ++ zip_with MkEntry vectors first_set
      ∧ delete (CHROMA_PERSIST_DIR, COLLECTION_NAME)
          (collections after_first)
        = delete (CHROMA_PERSIST_DIR, COLLECTION_NAME) (collections nothing)
      ∧ environ after_first = environ nothing.
Proof.
  apply (create_vector_store_adds services api_key first_set nothing
           after_first resume_store).
  by vm_compute.
Defined.

Section chain_facts.
Context {Vector : Type} (svc : Services Vector).
Implicit Types w : World Vector.

Lemma build_rag_chain_ok key store w rag_chain w' :
  build_rag_chain svc key store w = (inr rag_chain, w') →
  rag_chain
  = RetrievalQA_from_chain_type svc (Chat key (lit "gpt-3.5-turbo") 0)
      store 4 PROMPT
  ∧ w' = w.
Proof.
  unfold build_rag_chain, ChatOpenAI_new.
  unfold mbind, M_bind, bind, get_world, lift, mret, M_ret, ret.
  destruct (client_init svc key (environ w)) as [e|[]]; [done|].
  by intros [= <- <-].
Qed.

(** What [answer_with_rag] does with a chain of [build_rag_chain]. *)
Lemma answer_with_built_chain llm store question w :
  answer_with_rag (RetrievalQA_from_chain_type svc llm store 4 PROMPT)
    question w
  = match embedding_function store with
    | OEmbeddings e =>
        match embed_query svc e question with
        | inl err => (inl err, w)
        | inr q =>
            match collections w
                    !! (persist_directory store, collection_name store) with
            | None =>
                (inl (Exn ValueError (lit "Collection does not exist")), w)
            | Some entries =>
                let docs := e_document <$> query_collection svc entries q 4 in
                match chat_completion svc llm
                        (PROMPT (join [LF; LF] (page_content <$> docs))
                           question) with
                | inl err => (inl err, w)
                | inr response =>
                    (inr (MkRagAnswer (OStr (content response))
                            (source_of <$> docs)), w)
                end
            end
        end
    | _ =>
        (inl (Exn AttributeError
                (lit "object has no attribute 'embed_query'")), w)
    end.
Proof.
  unfold answer_with_rag, RetrievalQA_from_chain_type,
    Chroma_similarity_search. simpl.
  destruct (embedding_function store) as [e| | |]; try done.
  unfold mbind, M_bind, bind, lift, get_world, mret, M_ret, ret, raise.
  destruct (embed_query svc e question) as [err|q]; [done|].
  destruct (collections w !! _) as [entries|]; [|done].
  destruct (chat_completion svc llm _) as [err|response]; [done|].
  unfold getitem.
  rewrite (lookup_insert_ne _ (lit "query") (lit "result")) by done.
  rewrite lookup_insert_eq.
  rewrite (lookup_insert_ne _ (lit "query") (lit "source_documents")) by done.
  rewrite (lookup_insert_ne _ (lit "result") (lit "source_documents")) by done.
  by rewrite lookup_singleton_eq.
Qed.
End chain_facts.

Lemma query_collection_length {Vector : Type} (svc : Services Vector)
    (entries : list (Entry Vector)) q n :
  length (query_collection svc entries q n) = (n `min` length entries)%nat.
Proof.
  unfold query_collection.
  by rewrite length_take, merge_sort_Permutation.
Qed.

(** X5.  A chain of [build_rag_chain] retrieves the 4 nearest records, or
    all of them when the collection holds fewer: [answer_with_rag] reports
    [min(4, number of records)] sources. *)
Theorem rag_answer_at_most_four {Vector : Type} (svc : Services Vector)
    (OPENAI_API_KEY : option str) (vector_store : Chroma)
    (w0 w0' w w' : World Vector) (rag_chain : RetrievalQA Vector)
    (question : str) (r : RagAnswer) :
  build_rag_chain svc OPENAI_API_KEY vector_store w0 = (inr rag_chain, w0') →
  answer_with_rag rag_chain question w = (inr r, w') →
  ∃ entries,
    collections w
      !! (persist_directory vector_store, collection_name vector_store)
    = Some entries
    ∧ length (sources r) = (4 `min` length entries)%nat.
Proof.
  intros [-> _]%build_rag_chain_ok. rewrite answer_with_built_chain.
  destruct (embedding_function vector_store) as [e| | |]; try done.
  destruct (embed_query svc e question) as [err|q]; [done|].
  destruct (collections w !! _) as [entries|]; [|done]. simpl.
  destruct (chat_completion svc _ _) as [err|response]; [done|].
  intros [= <- <-]. exists entries. split; [done|]. simpl.
  by rewrite !length_fmap, query_collection_length.
Qed.

Lemma rag_answer_at_most_four_witness :
  ∃ entries,
    collections after_second
      !! (persist_directory resume_store, collection_name resume_store)
    = Some entries
    ∧ length (sources alpha_answer) = (4 `min` length entries)%nat.
Proof.
  apply (rag_answer_at_most_four services api_key resume_store
           nothing nothing after_second after_second built_chain
           (lit "alpha")); by vm_compute.
Defined.

(** X6.  With a chain of [build_rag_chain], the answer [answer_with_rag]
    returns is the reply of the chat model ([gpt-3.5-turbo], temperature 0)
    to the prompt filled with the texts of exactly the sources it reports,
    in their order and a blank line apart, and with the question; the call
    leaves files, collections and environment as they were. *)
Theorem rag_answer_grounded {Vector : Type} (svc : Services Vector)
    (OPENAI_API_KEY : option str) (vector_store : Chroma)
    (w0 w0' w w' : World Vector) (rag_chain : RetrievalQA Vector)
    (question : str) (r : RagAnswer) :
  build_rag_chain svc OPENAI_API_KEY vector_store w0 = (inr rag_chain, w0') →
  answer_with_rag rag_chain question w = (inr r, w') →
  w' = w
  ∧ ∃ response,
      chat_completion svc (Chat OPENAI_API_KEY (lit "gpt-3.5-turbo") 0)
        (PROMPT (join [LF; LF] (src_content <$> sources r)) question)
      = inr response
      ∧ answer r = OStr (content response).
Proof.
  intros [-> _]%build_rag_chain_ok. rewrite answer_with_built_chain.
  destruct (embedding_function vector_store) as [e| | |]; try done.
  destruct (embed_query svc e question) as [err|q]; [done|].
  destruct (collections w !! _) as [entries|]; [|done]. simpl.
  destruct (chat_completion svc _ _) as [err|response] eqn:Hchat; [done|].
  intros [= <- <-]. split; [done|]. exists response. split; [|done].
  simpl. rewrite <- list_fmap_compose. exact Hchat.
Qed.

Lemma rag_answer_grounded_witness :
  after_second = after_second
  ∧ ∃ response,
      chat_completion services (Chat api_key (lit "gpt-3.5-turbo") 0)
        (PROMPT (join [LF; LF] (src_content <$> sources alpha_answer))
           (lit "alpha"))
      = inr response
      ∧ answer alpha_answer = OStr (content response).
Proof.
  apply (rag_answer_grounded services api_key resume_store
           nothing nothing after_second after_second built_chain
           (lit "alpha")); by vm_compute.
Defined.

(** X7.  When the dictionary the chain returns lacks [result] or
    [source_documents], [answer_with_rag] raises [KeyError] and returns
    nothing, in the world the chain left. *)
Theorem answer_with_rag_missing_key {Vector : Type}
    (rag_chain : RetrievalQA Vector) (question : str) (w w1 : World Vector)
    (d : gmap str object) :
  invoke rag_chain question w = (inr d, w1) →
  d !! lit "result" = None ∨ d !! lit "source_documents" = None →
  ∃ e, answer_with_rag rag_chain question w = (inl e, w1)
       ∧ exn_class e = KeyError.
Proof.
  intros Hinv Hmiss. unfold answer_with_rag.
  unfold mbind, M_bind, bind. rewrite Hinv. unfold lift, getitem.
  destruct (d !! lit "result") as [a|] eqn:Ha; [|by eexists].
  destruct Hmiss as [?|Hs]; [done|]. rewrite Hs. by eexists.
Qed.

Lemma answer_with_rag_missing_key_witness :
  ∃ e, answer_with_rag bare_chain (lit "What skills are listed?") nothing
       = (inl e, nothing)
       ∧ exn_class e = KeyError.
Proof.
  apply (answer_with_rag_missing_key bare_chain _ nothing nothing
           (bare_reply (lit "What skills are listed?"))).
  - reflexivity.
  - right. by vm_compute.
Defined.

(** *** The outcomes of [process_uploaded_pdf] *)

Section upload_facts.
Context {Vector : Type} (svc : Services Vector) (key : option str).
Implicit Types w : World Vector.

(** Building the index, with whatever outcome, touches no file outside the
    directory of the store and no environment variable. *)
Lemma create_vector_store_frame chunks w :
  files (create_vector_store svc key chunks w).2 = files w
  ∧ environ (create_vector_store svc key chunks w).2 = environ w.
Proof.
  unfold create_vector_store, OpenAIEmbeddings_new.
  unfold Chroma_from_documents, Chroma_new, Chroma_add_texts.
  unfold mbind, M_bind, bind, get_world, lift, modify, mret, M_ret, ret,
    raise.
  destruct (client_init svc key (environ w)) as [e|[]]; [done|]. simpl.
  destruct (embed_documents svc _ _) as [e|vectors]; [done|].
  by repeat case_decide.
Qed.

(** [process_uploaded_pdf], step by step: the outcome after the temporary
    file [path] was written, giving world [w0]. *)
Lemma process_uploaded_pdf_eq uploaded_file w :
  let path := tmp_name svc (files w) in
  let w0 := set_files <[path := uploaded_file]> w in
  let failed (e : exn) (w1 : World Vector) :=
    (if is_Exception (exn_class e)
     then inr (None, 0, false, lit "Error processing PDF: " ++ exn_str e)
     else inl e,
     set_files (delete path) w1) in
  process_uploaded_pdf svc key uploaded_file w
  = match pdf_extract svc uploaded_file with
    | inl e => failed e w0
    | inr texts =>
        match create_vector_store svc key (pdf_chunks path texts) w0 with
        | (inl e, w1) => failed e w1
        | (inr store, w1) =>
            match client_init svc key (environ w1) with
            | inl e => failed e w1
            | inr _ =>
                (inr (Some (RetrievalQA_from_chain_type svc
                              (Chat key (lit "gpt-3.5-turbo") 0)
                              store 4 PROMPT),
                      len (pdf_chunks path texts), true,
                      lit "Resume processed successfully!"),
                 set_files (delete path) w1)
            end
        end
    end.
Proof.
  intros path w0 failed. subst failed.
  unfold process_uploaded_pdf, NamedTemporaryFile_write.
  unfold mbind at 1 2 3, M_bind, bind, get_world, modify, mret, M_ret, ret.
  simpl. fold path. fold w0.
  assert (∀ w1 : World Vector, files w1 = files w0 →
            os_unlink path w1 = (inr (), set_files (delete path) w1))
    as Hunlink.
  { intros w1 Hf. unfold os_unlink, mbind, M_bind, bind, get_world, modify.
    rewrite Hf. simpl. by rewrite lookup_insert_eq. }
  unfold try_finally, try_except, mbind, M_bind, bind.
  rewrite (load_and_chunk_pdf_eq svc path w0 uploaded_file)
    by apply lookup_insert_eq.
  destruct (pdf_extract svc uploaded_file) as [e|texts].
  { destruct (is_Exception (exn_class e)); by rewrite Hunlink. }
  pose proof (create_vector_store_frame (pdf_chunks path texts) w0)
    as [Hfiles _].
  destruct (create_vector_store svc key (pdf_chunks path texts) w0)
    as [[e|store] w1] eqn:Hc; simpl in Hfiles.
  { destruct (is_Exception (exn_class e)); by rewrite Hunlink. }
  unfold build_rag_chain, ChatOpenAI_new.
  unfold mbind, M_bind, bind, get_world, lift, mret, M_ret, ret.
  destruct (client_init svc key (environ w1)) as [e|[]].
  { destruct (is_Exception (exn_class e)); by rewrite Hunlink. }
  by rewrite Hunlink.
Qed.
End upload_facts.

Section try_facts.
Context {Vector : Type} (svc : Services Vector) (key : option str).
Implicit Types w : World Vector.

(** The body of the [try] statement of [process_uploaded_pdf], run on the
    temporary file [path]. *)
Lemma try_body_eq path uploaded_file w0 :
  files w0 !! path = Some uploaded_file →
  (chunks ← load_and_chunk_pdf svc path;
   vector_store ← create_vector_store svc key chunks;
   build_rag_chain svc key vector_store) w0
  = match pdf_extract svc uploaded_file with
    | inl e => (inl e, w0)
    | inr texts =>
        match create_vector_store svc key (pdf_chunks path texts) w0 with
        | (inl e, w1) => (inl e, w1)
        | (inr store, w1) =>
            match client_init svc key (environ w1) with
            | inl e => (inl e, w1)
            | inr _ =>
                (inr (RetrievalQA_from_chain_type svc
                        (Chat key (lit "gpt-3.5-turbo") 0) store 4 PROMPT),
                 w1)
            end
        end
    end.
Proof.
  intros Hf. unfold mbind at 1 2, M_bind, bind.
  rewrite (load_and_chunk_pdf_eq svc path w0 uploaded_file) by done.
  destruct (pdf_extract svc uploaded_file) as [e|texts]; [done|].
  destruct (create_vector_store svc key (pdf_chunks path texts) w0)
    as [[e|store] w1]; [done|].
  unfold build_rag_chain, ChatOpenAI_new.
  unfold mbind, M_bind, bind, get_world, lift, mret, M_ret, ret.
  by destruct (client_init svc key (environ w1)) as [e|[]].
Qed.

End try_facts.

(** X8.  Once the temporary file is written, whatever the body of the [try]
    statement raises, in loading, chunking, embedding or building the
    chain, is handled by class: an exception derived from [Exception] does
    not leave [process_uploaded_pdf], which returns the tuple of a failed
    run with the text of the exception in its message; an exception outside
    [Exception], such as [KeyboardInterrupt], passes through.  In both
    cases the temporary file is removed first. *)
Theorem process_uploaded_pdf_contains_errors {Vector : Type}
    (svc : Services Vector) (OPENAI_API_KEY : option str)
    (uploaded_file : bytes) (w w' : World Vector) (e : exn) :
  (chunks ← load_and_chunk_pdf svc (tmp_name svc (files w));
   vector_store ← create_vector_store svc OPENAI_API_KEY chunks;
   build_rag_chain svc OPENAI_API_KEY vector_store)
    (set_files <[tmp_name svc (files w) := uploaded_file]> w)
  = (inl e, w') →
  process_uploaded_pdf svc OPENAI_API_KEY uploaded_file w
  = (if is_Exception (exn_class e)
     then inr (None, 0, false, lit "Error processing PDF: " ++ exn_str e)
     else inl e,
     set_files (delete (tmp_name svc (files w))) w').
Proof.
  rewrite (try_body_eq svc OPENAI_API_KEY _ uploaded_file)
    by apply lookup_insert_eq.
  rewrite process_uploaded_pdf_eq. simpl.
  destruct (pdf_extract svc uploaded_file) as [e1|texts].
  { by intros [= <- <-]. }
  destruct (create_vector_store svc OPENAI_API_KEY _ _) as [[e1|store] w1].
  { by intros [= <- <-]. }
  destruct (client_init svc OPENAI_API_KEY (environ w1)) as [e1|[]]; [|done].
  by intros [= <- <-].
Qed.

Lemma process_uploaded_pdf_contains_errors_witness :
  process_uploaded_pdf embedding_down api_key resume nothing
  = (if is_Exception (exn_class quota)
     then inr (None, 0, false,
               lit "Error processing PDF: " ++ exn_str quota)
     else inl quota,
     set_files (delete (tmp_name embedding_down (files nothing)))
       (create_vector_store embedding_down api_key
          (pdf_chunks (tmp_name embedding_down (files nothing))
             (pages_of resume))
          (set_files
             <[tmp_name embedding_down (files nothing) := resume]>
             nothing)).2).
Proof.
  apply (process_uploaded_pdf_contains_errors embedding_down api_key resume
           nothing).
  reflexivity.
Defined.


(** X10.  The tuple [process_uploaded_pdf] returns is coherent.  With the
    flag [True] come a chain, the success message and the number of
    passages, and the collection has grown by exactly that many records;
    with the flag [False] come no chain, the count 0 and a message that
    starts with ["Error processing PDF: "]. *)
Theorem process_uploaded_pdf_tuple {Vector : Type}
    (svc : Services Vector) (OPENAI_API_KEY : option str)
    (uploaded_file : bytes) (w w' : World Vector)
    (rag_chain : option (RetrievalQA Vector)) (n : Z) (flag : bool)
    (message : str) :
  process_uploaded_pdf svc OPENAI_API_KEY uploaded_file w
  = (inr (rag_chain, n, flag, message), w') →
  if flag then
    is_Some rag_chain
    ∧ message = lit "Resume processed successfully!"
    ∧ ∃ added : list (Entry Vector),
        len added = n
        ∧ collections w' !! (CHROMA_PERSIST_DIR, COLLECTION_NAME)
          = Some (default []
                    (collections w !! (CHROMA_PERSIST_DIR, COLLECTION_NAME))
                  ++ added)
  else
    rag_chain = None ∧ n = 0
    ∧ ∃ e, message = lit "Error processing PDF: " ++ exn_str e.
Proof.
  rewrite process_uploaded_pdf_eq.
  set (path := tmp_name svc (files w)).
  set (w0 := set_files <[path := uploaded_file]> w).
  assert (∀ e (w1 : World Vector),
            (if is_Exception (exn_class e)
             then inr (None, 0, false,
                       lit "Error processing PDF: " ++ exn_str e)
             else inl e, set_files (delete path) w1)
            = (inr (rag_chain, n, flag, message), w') →
            if flag then
              is_Some rag_chain
              ∧ message = lit "Resume processed successfully!"
              ∧ ∃ added : list (Entry Vector),
                  len added = n
                  ∧ collections w' !! (CHROMA_PERSIST_DIR, COLLECTION_NAME)
                    = Some (default []
                              (collections w
                                 !! (CHROMA_PERSIST_DIR, COLLECTION_NAME))
                            ++ added)
            else
              rag_chain = None ∧ n = 0
              ∧ ∃ e, message = lit "Error processing PDF: " ++ exn_str e)
    as Hfailed.
  { intros e w1. destruct (is_Exception (exn_class e)); [|done].
    intros [= <- <- <- <- <-]. split; [done|]. split; [done|]. by exists e. }
  destruct (pdf_extract svc uploaded_file) as [e|texts]; [by apply Hfailed|].
  destruct (create_vector_store _ _ _ _) as [[e|store] w1] eqn:Hc;
    [by apply Hfailed|].
  destruct (client_init svc _ _) as [e|[]]; [by apply Hfailed|].
  intros [= <- <- <- <- <-].
  apply create_vector_store_ok in Hc as (added & Hdocs & Hcoll & _).
  split; [by eexists|]. split; [done|]. exists added. split.
  - unfold len. by rewrite <- Hdocs, length_fmap.
  - exact Hcoll.
Qed.

Lemma process_uploaded_pdf_tuple_witness :
  is_Some (Some built_chain)
  ∧ lit "Resume processed successfully!"
    = lit "Resume processed successfully!"
  ∧ ∃ added : list (Entry Z),
      len added = 1
      ∧ collections after_upload !! (CHROMA_PERSIST_DIR, COLLECTION_NAME)
        = Some (default []
                  (collections nothing
                     !! (CHROMA_PERSIST_DIR, COLLECTION_NAME))
                ++ added).
Proof.
  apply (process_uploaded_pdf_tuple services api_key resume nothing
           after_upload (Some built_chain) 1 true
           (lit "Resume processed successfully!")).
  by vm_compute.
Defined.

(** X11.  When the PDF cannot be read, or the credential is rejected when
    the embeddings client is made, [process_uploaded_pdf] returns the tuple
    of a failed run with the message of that failure, and no collection is
    created or changed. *)
Theorem process_uploaded_pdf_fails_before_index {Vector : Type}
    (svc : Services Vector) (OPENAI_API_KEY : option str)
    (uploaded_file : bytes) (w : World Vector) (texts : list str) (e : exn) :
  pdf_extract svc uploaded_file = inl e
  ∨ (pdf_extract svc uploaded_file = inr texts
     ∧ client_init svc OPENAI_API_KEY (environ w) = inl e) →
  is_Exception (exn_class e) = true →
  (process_uploaded_pdf svc OPENAI_API_KEY uploaded_file w).1
  = inr (None, 0, false, lit "Error processing PDF: " ++ exn_str e)
  ∧ collections (process_uploaded_pdf svc OPENAI_API_KEY uploaded_file w).2
    = collections w.
Proof.
  intros Hfail Hexc. rewrite process_uploaded_pdf_eq.
  destruct Hfail as [Hx|[Hx Hc]]; rewrite Hx.
  - simpl. by rewrite Hexc.
  - unfold create_vector_store, OpenAIEmbeddings_new.
    unfold mbind, M_bind, bind, get_world, lift. simpl. rewrite Hc.
    simpl. by rewrite Hexc.
Qed.

Lemma process_uploaded_pdf_fails_before_index_witness :
  (process_uploaded_pdf loader_down api_key resume nothing).1
  = inr (None, 0, false, lit "Error processing PDF: " ++ exn_str unreadable)
  ∧ collections (process_uploaded_pdf loader_down api_key resume nothing).2
    = collections nothing.
Proof.
  apply (process_uploaded_pdf_fails_before_index loader_down api_key resume
           nothing [] unreadable).
  - by left.
  - reflexivity.
Defined.

(** X12.  At import, a credential in the process environment wins over the
    one in the [.env] file, which is used only when the environment has
    none; and importing the module changes no variable the environment
    already has. *)
Theorem module_init_precedence {Vector : Type} (dotenv : gmap str str)
    (w : World Vector) :
  (module_init dotenv w).1
  = inr (match environ w !! lit "OPENAI_API_KEY" with
         | Some key => Some key
         | None => dotenv !! lit "OPENAI_API_KEY"
         end)
  ∧ environ w ⊆ environ (module_init dotenv w).2.
Proof.
  unfold module_init, load_dotenv, os_getenv.
  unfold mbind, M_bind, bind, get_world, modify, mret, M_ret, ret. simpl.
  split; [|apply map_union_subseteq_l].
  f_equal. rewrite lookup_union.
  by destruct (environ w !! _), (dotenv !! _).
Qed.

Lemma pdf_chunks_source path texts :
  Forall (λ chunk, metadata chunk !! lit "source" = Some (SStr path))
    (pdf_chunks path texts).
Proof.
  apply Forall_forall.
  intros chunk (page & Hpage & -> & _)%split_documents_elem.
  unfold loaded_pages in Hpage.
  apply list_elem_of_lookup in Hpage as (i & Hi).
  rewrite list_lookup_imap in Hi.
  destruct (texts !! i); simplify_eq/=. by rewrite lookup_insert_eq.
Qed.

(** X13.  After a successful [process_uploaded_pdf], every record it added
    to the collection names the temporary file as its [source], and that
    file no longer exists. *)
Theorem indexed_source_is_removed_file {Vector : Type}
    (svc : Services Vector) (OPENAI_API_KEY : option str)
    (uploaded_file : bytes) (w w' : World Vector)
    (rag_chain : option (RetrievalQA Vector)) (n : Z) (message : str) :
  process_uploaded_pdf svc OPENAI_API_KEY uploaded_file w
  = (inr (rag_chain, n, true, message), w') →
  ∃ added : list (Entry Vector),
    collections w' !! (CHROMA_PERSIST_DIR, COLLECTION_NAME)
    = Some (default []
              (collections w !! (CHROMA_PERSIST_DIR, COLLECTION_NAME))
            ++ added)
    ∧ Forall (λ record,
                metadata (e_document record) !! lit "source"
                = Some (SStr (tmp_name svc (files w))))
        added
    ∧ files w' !! tmp_name svc (files w) = None.
Proof.
  rewrite process_uploaded_pdf_eq.
  destruct (pdf_extract svc uploaded_file) as [e|texts].
  { simpl. by destruct (is_Exception (exn_class e)). }
  destruct (create_vector_store _ _ _ _) as [[e|store] w1] eqn:Hc.
  { simpl. by destruct (is_Exception (exn_class e)). }
  destruct (client_init svc _ _) as [e|[]].
  { simpl. by destruct (is_Exception (exn_class e)). }
  intros [= <- <- <- <-].
  apply create_vector_store_ok in Hc as (added & Hdocs & Hcoll & _).
  exists added. split; [exact Hcoll|].
  split; [|simpl; apply lookup_delete_eq].
  pose proof (pdf_chunks_source (tmp_name svc (files w)) texts) as Hsrc.
  rewrite <- Hdocs, Forall_fmap in Hsrc. exact Hsrc.
Qed.

Lemma indexed_source_is_removed_file_witness :
  ∃ added : list (Entry Z),
    collections after_upload !! (CHROMA_PERSIST_DIR, COLLECTION_NAME)
    = Some (default []
              (collections nothing !! (CHROMA_PERSIST_DIR, COLLECTION_NAME))
            ++ added)
    ∧ Forall (λ record,
                metadata (e_document record) !! lit "source"
                = Some (SStr (tmp_name services (files nothing))))
        added
    ∧ files after_upload !! tmp_name services (files nothing) = None.
Proof.
  apply (indexed_source_is_removed_file services api_key resume nothing
           after_upload (Some built_chain) 1
           (lit "Resume processed successfully!")).
  by vm_compute.
Defined.

Import App Sessions.

(** *** The script of [app.py] *)

Section script_facts.
Context {Vector : Type} (svc : Services Vector) (key : option str).
Implicit Types (s : RunState Vector) (ss : SessionState Vector).
Implicit Types (w : World Vector) (wd : Widgets).

Lemma script_bind_ok {A B} (m : Script Vector A) (k : A → Script Vector B)
    s a s' :
  m s = (inr a, s') → (x ← m; k x) s = k a s'.
Proof. unfold mbind, Script_bind, script_bind. by intros ->. Qed.

Lemma script_bind_stop {A B} (m : Script Vector A) (k : A → Script Vector B)
    s why s' :
  m s = (inl why, s') → (x ← m; k x) s = (inl why, s').
Proof. unfold mbind, Script_bind, script_bind. by intros ->. Qed.

Lemma get_session_bind {B} (k : SessionState Vector → Script Vector B) s :
  (ss ← get_session; k ss) s = k (session s) s.
Proof. done. Qed.

Lemma emit_bind {B} el (k : Script Vector B) s :
  (emit el;; k) s = k (MkRun (session s) (world s) (page s ++ [el])).
Proof. done. Qed.

(** The suggested-question buttons change [current_question] alone. *)
Lemma suggested_step_eq wd s :
  suggested_step wd s
  = (inr tt,
     MkRun (MkSession (rag_chain (session s)) (resume_processed (session s))
              (chunk_count (session s)) (qa_history (session s))
              (current_answer (session s))
              (pick_question wd (current_question (session s))))
       (world s) (page s)).
Proof.
  unfold suggested_step, pick_question.
  generalize (imap pair (take 6 SUGGESTED_QUESTIONS)). intros l.
  assert (∀ (before : Script Vector unit) q,
            before s
            = (inr tt,
               MkRun (MkSession (rag_chain (session s))
                        (resume_processed (session s))
                        (chunk_count (session s)) (qa_history (session s))
                        (current_answer (session s)) q)
                 (world s) (page s)) →
            foldl (λ (before : Script Vector unit) '(i, question),
                     before;;
                     if suggested_clicked wd i then
                       set_session (λ ss, MkSession (rag_chain ss)
                                            (resume_processed ss)
                                            (chunk_count ss) (qa_history ss)
                                            (current_answer ss) question)
                     else mret tt)
              before l s
            = (inr tt,
               MkRun (MkSession (rag_chain (session s))
                        (resume_processed (session s))
                        (chunk_count (session s)) (qa_history (session s))
                        (current_answer (session s))
                        (foldl (λ q '(i, question),
                                  if suggested_clicked wd i then question
                                  else q) q l))
                 (world s) (page s))) as Hgen.
  { induction l as [|[i question] l IH]; intros before q Hb; [done|].
    simpl. apply IH. erewrite script_bind_ok by exact Hb.
    by destruct (suggested_clicked wd i). }
  apply Hgen. by destruct s as [[] ? ?].
Qed.

(** Showing sources draws on the page and changes nothing else. *)
Lemma show_sources_draws i sources s :
  session (show_sources i sources s).2 = session s
  ∧ world (show_sources i sources s).2 = world s.
Proof.
  revert i s. induction sources as [|source rest IH]; intros i s; [done|].
  simpl. destruct (src_page source); try done.
  unfold mbind, Script_bind, script_bind, emit. simpl.
  destruct (IH (S i) (MkRun (session s) (world s)
                        (page s ++ [SourceBox (Z.of_nat i + 1) (n + 1)
                                      (src_content source)]))) as [H1 H2].
  by destruct (show_sources _ _ _).
Qed.

(** With numbered pages, the source boxes are drawn and nothing is
    raised. *)
Lemma show_sources_numbered i (shown : list (str * Z)) s :
  show_sources i (numbered_source <$> shown) s
  = (inr tt, MkRun (session s) (world s)
               (page s ++ imap (λ j, source_box (i + j)) shown)).
Proof.
  revert i s. induction shown as [|[c p] shown IH]; intros i s.
  { simpl. rewrite app_nil_r. by destruct s. }
  simpl. unfold mbind, Script_bind, script_bind, emit. simpl.
  rewrite IH. simpl. rewrite <- app_assoc. simpl.
  unfold source_box at 2. simpl. rewrite Nat.add_0_r.
  do 4 f_equal. apply imap_ext. intros j x _. simpl. f_equal. lia.
Qed.

Lemma display_step_draws wd s :
  session (display_step wd s).2 = session s
  ∧ world (display_step wd s).2 = world s.
Proof.
  unfold display_step, mbind, Script_bind, script_bind, get_session.
  destruct (current_answer (session s)) as [current|]; [|done].
  unfold emit. simpl.
  match goal with
  | |- context [show_sources 0 ?l] =>
      destruct (show_comparison wd
                && from_option truthy false (ans_no_rag_answer current));
      [destruct (ans_no_rag_answer current)|]; simpl;
      match goal with
      | |- context [show_sources 0 l ?s0] =>
          destruct (show_sources_draws 0 l s0) as [H1 H2];
          by destruct (show_sources 0 l s0)
      end
  end.
Qed.

Lemma history_step_draws s :
  session (history_step s).2 = session s
  ∧ world (history_step s).2 = world s.
Proof.
  unfold history_step, mbind, Script_bind, script_bind, get_session.
  destruct (1 <? len (qa_history (session s))); [|done].
  generalize (rev (take (length (qa_history (session s)) - 1)
                     (qa_history (session s)))). intros l.
  assert (∀ before : Script Vector unit,
            (session (before s).2 = session s
             ∧ world (before s).2 = world s) →
            session (foldl (λ (before : Script Vector unit) qa,
                              before;;
                              emit (HistoryEntry (qa_question qa)
                                      (qa_answer qa)))
                       before l s).2 = session s
            ∧ world (foldl (λ (before : Script Vector unit) qa,
                              before;;
                              emit (HistoryEntry (qa_question qa)
                                      (qa_answer qa)))
                       before l s).2 = world s) as Hgen.
  { induction l as [|qa l IH]; intros before Hb; [done|].
    simpl. apply IH. unfold mbind, Script_bind, script_bind, emit.
    by destruct (before s) as [[?|?] ?]. }
  by apply Hgen.
Qed.

(** [answer_without_rag] returns nothing, whatever the question. *)
Lemma answer_without_rag_stops question w :
  ∃ e, answer_without_rag svc key question w = (inl e, w).
Proof.
  unfold answer_without_rag, ChatOpenAI_new.
  unfold mbind, M_bind, bind, get_world, lift, mret, M_ret, ret.
  destruct (client_init svc key (environ w)) as [e|[]]; [by eexists|].
  destruct (chat_completion svc _ _) as [e|response]; [by eexists|].
  rewrite AIMessage_no_strip. by eexists.
Qed.

(** The history drawn: all but the latest entry, newest first, once there
    are two entries. *)
Lemma history_step_eq s :
  history_step s
  = (inr tt,
     MkRun (session s) (world s)
       (page s
        ++ if 1 <? len (qa_history (session s)) then
             history_entry
               <$> rev (take (length (qa_history (session s)) - 1)
                          (qa_history (session s)))
           else [])).
Proof.
  unfold history_step. rewrite get_session_bind.
  destruct (1 <? len (qa_history (session s)));
    [|rewrite app_nil_r; by destruct s].
  generalize (rev (take (length (qa_history (session s)) - 1)
                     (qa_history (session s)))). intros l.
  assert (∀ (before : Script Vector unit) drawn,
            before s = (inr tt, MkRun (session s) (world s)
                                  (page s ++ drawn)) →
            foldl (λ (before : Script Vector unit) qa,
                     before;;
                     emit (HistoryEntry (qa_question qa) (qa_answer qa)))
              before l s
            = (inr tt, MkRun (session s) (world s)
                         (page s ++ drawn ++ (history_entry <$> l))))
    as Hgen.
  { induction l as [|qa l IH]; intros before drawn Hb.
    - simpl. by rewrite app_nil_r.
    - simpl. rewrite (IH _ (drawn ++ [history_entry qa])).
      + by rewrite <- app_assoc.
      + erewrite script_bind_ok by exact Hb. unfold emit. simpl.
        by rewrite <- app_assoc. }
  rewrite (Hgen (mret tt) []); [done|].
  rewrite app_nil_r. by destruct s.
Qed.

Lemma upload_step_processed file s :
  resume_processed (session s) = true →
  upload_step svc key file s = (inr tt, s).
Proof.
  intros Hdone. unfold upload_step.
  unfold mbind, Script_bind, script_bind, get_session. by rewrite Hdone.
Qed.

(** A run on a session whose resume is processed: the upload step does
    nothing, and the rest starts from the question in the box. *)
Lemma run_processed wd ss w file :
  uploaded_file wd = Some file →
  resume_processed ss = true →
  run svc key wd ss w
  = (clear_step wd;;
     ask_step svc key wd (asked wd (current_question ss));;
     display_step wd;;
     history_step)
      (MkRun (MkSession (rag_chain ss) true (chunk_count ss) (qa_history ss)
                (current_answer ss)
                (pick_question wd (current_question ss)))
         w [ChunksCreated (chunk_count ss)]).
Proof.
  intros Hfile Hdone. unfold run, script. rewrite Hfile.
  erewrite script_bind_ok by (by apply upload_step_processed).
  rewrite get_session_bind. simpl. rewrite Hdone.
  rewrite emit_bind. simpl.
  erewrite script_bind_ok by apply suggested_step_eq.
  rewrite get_session_bind. simpl. by rewrite Hdone.
Qed.
End script_facts.

(** X14.  Once a session has a processed resume, the file in the uploader
    no longer matters: a run with another file does exactly what the run
    with the first file does, so a second resume uploaded in the session is
    never processed. *)
Theorem second_upload_ignored {Vector : Type} (svc : Services Vector)
    (OPENAI_API_KEY : option str) (ss : SessionState Vector)
    (w : World Vector) (comparison : bool) (file1 file2 : bytes)
    (clicked : nat → bool) (box : str → str) (ask clear : bool) :
  resume_processed ss = true →
  run svc OPENAI_API_KEY
    (MkWidgets comparison (Some file1) clicked box ask clear) ss w
  = run svc OPENAI_API_KEY
      (MkWidgets comparison (Some file2) clicked box ask clear) ss w.
Proof.
  intros Hdone.
  rewrite (run_processed svc OPENAI_API_KEY _ ss w file1) by done.
  by rewrite (run_processed svc OPENAI_API_KEY _ ss w file2) by done.
Qed.

Lemma second_upload_ignored_witness :
  run services api_key
    (MkWidgets false (Some resume) (λ _, false) (λ q, q) true false)
    ready after_upload
  = run services api_key
      (MkWidgets false (Some other_resume) (λ _, false) (λ q, q) true false)
      ready after_upload.
Proof.
  apply (second_upload_ignored services api_key ready after_upload).
  reflexivity.
Defined.

(** X15.  The Clear button, in a session with a processed resume, empties
    the history and the answer on display and restarts the script at once:
    the chain, the chunk count and the collections stay, no question is
    answered in that run even if Get Answer is pressed too, and nothing but
    the chunk count has been drawn. *)
Theorem clear_resets {Vector : Type} (svc : Services Vector)
    (OPENAI_API_KEY : option str) (wd : Widgets) (ss : SessionState Vector)
    (w : World Vector) (file : bytes) :
  uploaded_file wd = Some file →
  resume_processed ss = true →
  clear_button wd = true →
  run svc OPENAI_API_KEY wd ss w
  = (inl Rerun,
     MkRun (MkSession (rag_chain ss) true (chunk_count ss) [] None
              (pick_question wd (current_question ss)))
       w [ChunksCreated (chunk_count ss)]).
Proof.
  intros Hfile Hdone Hclear. rewrite (run_processed _ _ _ _ _ file) by done.
  unfold clear_step. rewrite Hclear.
  by unfold mbind, Script_bind, script_bind, set_session, st_rerun.
Qed.

Lemma clear_resets_witness :
  run services api_key (clearing resume) busy after_upload
  = (inl Rerun,
     MkRun (MkSession (rag_chain busy) true (chunk_count busy) [] None
              (pick_question (clearing resume) (current_question busy)))
       after_upload [ChunksCreated (chunk_count busy)]).
Proof.
  apply (clear_resets services api_key (clearing resume) busy after_upload
           resume); reflexivity.
Defined.

Section ask_facts.
Context {Vector : Type} (svc : Services Vector) (key : option str).

(** What the answer step does once the chain has answered. *)
Lemma ask_step_answered wd question s chain r w1 :
  ask_button wd = true →
  question ≠ [] →
  rag_chain (session s) = Some chain →
  answer_with_rag chain question (world s) = (inr r, w1) →
  ask_step svc key wd question s
  = if show_comparison wd then
      match answer_without_rag svc key question w1 with
      | (inl e, w2) => (inl (Raised e), MkRun (session s) w2 (page s))
      | (inr a, w2) =>
          (inr tt,
           MkRun (MkSession (rag_chain (session s))
                    (resume_processed (session s)) (chunk_count (session s))
                    (qa_history (session s) ++ [MkQA question (answer r)])
                    (Some (MkAnswer question (answer r) (sources r)
                             (Some a))) [])
             w2 (page s))
      end
    else
      (inr tt,
       MkRun (MkSession (rag_chain (session s))
                (resume_processed (session s)) (chunk_count (session s))
                (qa_history (session s) ++ [MkQA question (answer r)])
                (Some (MkAnswer question (answer r) (sources r) None)) [])
         w1 (page s)).
Proof.
  intros Hask Hq Hchain Hans. unfold ask_step.
  rewrite Hask. rewrite (bool_decide_eq_true_2 _ Hq). simpl.
  rewrite get_session_bind, Hchain.
  unfold mbind at 1, Script_bind, script_bind, call. rewrite Hans.
  destruct (show_comparison wd).
  - unfold mbind, Script_bind, script_bind, call. simpl.
    destruct (answer_without_rag svc key question w1) as [[e|a] w2];
      [done|]. unfold set_session. simpl. by rewrite Hchain.
  - unfold mbind, Script_bind, script_bind, set_session. simpl.
    by rewrite Hchain.
Qed.
End ask_facts.

(** X16.  With the comparison toggle on, a question is never answered on
    the page: after the chain has answered, the call of
    [answer_without_rag] ends the run with an exception, before the answer
    is stored.  The history and the answer on display stay as they were and
    nothing of the new answer is drawn. *)
Theorem comparison_loses_answer {Vector : Type} (svc : Services Vector)
    (OPENAI_API_KEY : option str) (wd : Widgets) (ss : SessionState Vector)
    (w w1 : World Vector) (file : bytes) (chain : RetrievalQA Vector)
    (r : RagAnswer) :
  uploaded_file wd = Some file →
  resume_processed ss = true →
  clear_button wd = false →
  ask_button wd = true →
  asked wd (current_question ss) ≠ [] →
  show_comparison wd = true →
  rag_chain ss = Some chain →
  answer_with_rag chain (asked wd (current_question ss)) w = (inr r, w1) →
  ∃ e,
    run svc OPENAI_API_KEY wd ss w
    = (inl (Raised e),
       MkRun (MkSession (rag_chain ss) true (chunk_count ss) (qa_history ss)
                (current_answer ss)
                (pick_question wd (current_question ss)))
         w1 [ChunksCreated (chunk_count ss)]).
Proof.
  intros Hfile Hdone Hclear Hask Hq Hcmp Hchain Hans.
  destruct (answer_without_rag_stops svc OPENAI_API_KEY
              (asked wd (current_question ss)) w1) as [e He].
  exists e. rewrite (run_processed _ _ _ _ _ file) by done.
  unfold clear_step. rewrite Hclear.
  erewrite script_bind_ok by reflexivity.
  erewrite script_bind_stop; [done|].
  erewrite ask_step_answered by done. by rewrite Hcmp, He.
Qed.

Lemma comparison_loses_answer_witness :
  ∃ e,
    run services api_key (typing "What skills are listed?" true resume)
      ready after_upload
    = (inl (Raised e),
       MkRun (MkSession (rag_chain ready) true (chunk_count ready)
                (qa_history ready) (current_answer ready)
                (pick_question
                   (typing "What skills are listed?" true resume)
                   (current_question ready)))
         after_upload [ChunksCreated (chunk_count ready)]).
Proof.
  apply (comparison_loses_answer services api_key
           (typing "What skills are listed?" true resume) ready
           after_upload after_upload resume built_chain skills_answer);
    by vm_compute.
Defined.

Section page_facts.
Context {Vector : Type} (svc : Services Vector) (key : option str).

(** The answer on display when no comparison is kept with it. *)
Lemma display_step_plain wd (s : RunState Vector) question rag_answer shown :
  current_answer (session s)
  = Some (MkAnswer question rag_answer (numbered_source <$> shown) None) →
  display_step wd s
  = (inr tt,
     MkRun (session s) (world s)
       (page s
        ++ [QuestionShown question; RagAnswerBox rag_answer;
            SourcesHeader (len shown)]
        ++ imap source_box shown)).
Proof.
  intros Hcur. unfold display_step. rewrite get_session_bind, Hcur. simpl.
  rewrite andb_false_r. rewrite !emit_bind. simpl.
  rewrite show_sources_numbered. simpl.
  unfold len. rewrite length_fmap. by rewrite <- !app_assoc.
Qed.
End page_facts.

(** X17.  A question asked with the comparison off, which the chain
    answers with sources on numbered pages: the run stores the answer,
    appends the question and the answer to the history, empties the
    question box, and draws the question, the answer, one box per source
    in retrieval order, with chunk numbers from 1 and each page shown one
    higher than stored, and then the earlier questions, newest first. *)
Theorem ask_shows_answer {Vector : Type} (svc : Services Vector)
    (OPENAI_API_KEY : option str) (wd : Widgets) (ss : SessionState Vector)
    (w w1 : World Vector) (file : bytes) (chain : RetrievalQA Vector)
    (r : RagAnswer) (shown : list (str * Z)) :
  uploaded_file wd = Some file →
  resume_processed ss = true →
  clear_button wd = false →
  ask_button wd = true →
  asked wd (current_question ss) ≠ [] →
  show_comparison wd = false →
  rag_chain ss = Some chain →
  answer_with_rag chain (asked wd (current_question ss)) w = (inr r, w1) →
  sources r = numbered_source <$> shown →
  run svc OPENAI_API_KEY wd ss w
  = (inr tt,
     MkRun
       (MkSession (Some chain) true (chunk_count ss)
          (qa_history ss
           ++ [MkQA (asked wd (current_question ss)) (answer r)])
          (Some (MkAnswer (asked wd (current_question ss)) (answer r)
                   (sources r) None))
          [])
       w1
       ([ChunksCreated (chunk_count ss);
         QuestionShown (asked wd (current_question ss));
         RagAnswerBox (answer r);
         SourcesHeader (len shown)]
        ++ imap source_box shown
        ++ (history_entry <$> rev (qa_history ss)))).
Proof.
  intros Hfile Hdone Hclear Hask Hq Hcmp Hchain Hans Hshown.
  rewrite (run_processed _ _ _ _ _ file) by done.
  unfold clear_step. rewrite Hclear.
  erewrite script_bind_ok by reflexivity.
  erewrite script_bind_ok
    by (erewrite ask_step_answered by done; by rewrite Hcmp).
  simpl.
  erewrite script_bind_ok
    by (apply display_step_plain; simpl; by rewrite Hshown).
  rewrite history_step_eq. simpl. rewrite Hchain, Hshown.
  rewrite length_app. simpl.
  replace (length (qa_history ss) + 1 - 1)%nat with (length (qa_history ss))
    by lia.
  rewrite take_app_length.
  assert ((if 1 <? len (qa_history ss
                        ++ [MkQA (asked wd (current_question ss))
                              (answer r)])
           then history_entry <$> rev (qa_history ss) else [])
          = history_entry <$> rev (qa_history ss)) as ->; [|done].
  destruct (qa_history ss) as [|qa h]; [done|].
  rewrite (proj2 (Z.ltb_lt _ _)); [done|].
  unfold len. rewrite length_app. simpl length. lia.
Qed.

Lemma ask_shows_answer_witness :
  run services api_key (typing "What skills are listed?" false resume)
    busy after_upload
  = (inr tt,
     MkRun
       (MkSession (Some built_chain) true (chunk_count busy)
          (qa_history busy
           ++ [MkQA (asked (typing "What skills are listed?" false resume)
                       (current_question busy))
                 (answer skills_answer)])
          (Some (MkAnswer
                   (asked (typing "What skills are listed?" false resume)
                      (current_question busy))
                   (answer skills_answer) (sources skills_answer) None))
          [])
       after_upload
       ([ChunksCreated (chunk_count busy);
         QuestionShown
           (asked (typing "What skills are listed?" false resume)
              (current_question busy));
         RagAnswerBox (answer skills_answer);
         SourcesHeader
           (len [(lit "Skills: Python, SQL. Experience: 2 years as analyst.",
                  0)])]
        ++ imap source_box
             [(lit "Skills: Python, SQL. Experience: 2 years as analyst.", 0)]
        ++ (history_entry <$> rev (qa_history busy)))).
Proof.
  apply (ask_shows_answer services api_key
           (typing "What skills are listed?" false resume) busy
           after_upload after_upload resume built_chain skills_answer
           [(lit "Skills: Python, SQL. Experience: 2 years as analyst.", 0)]);
    by vm_compute.
Defined.

Section session_facts.
Context {Vector : Type} (svc : Services Vector) (key : option str).
Implicit Types (s : RunState Vector) (ss : SessionState Vector).

(** The answer step, whatever happens in it, keeps the chain, the processed
    flag and the chunk count, and either leaves the history or, with the
    button pressed and the comparison off, appends one entry. *)
Lemma ask_step_keeps wd question s out s' :
  ask_step svc key wd question s = (out, s') →
  rag_chain (session s') = rag_chain (session s)
  ∧ resume_processed (session s') = resume_processed (session s)
  ∧ chunk_count (session s') = chunk_count (session s)
  ∧ (qa_history (session s') = qa_history (session s)
     ∨ ∃ qa, qa_history (session s') = qa_history (session s) ++ [qa]
             ∧ ask_button wd = true ∧ show_comparison wd = false).
Proof.
  unfold ask_step.
  destruct (ask_button wd) eqn:Hask;
    [|intros [= <- <-]; by split_and!; [..|left]].
  destruct (bool_decide (question ≠ []));
    [|intros [= <- <-]; by split_and!; [..|left]].
  simpl. rewrite get_session_bind.
  destruct (rag_chain (session s)) as [chain|] eqn:Hchain;
    [|intros [= <- <-]; by split_and!; [..|left]].
  unfold mbind at 1, Script_bind, script_bind, call.
  destruct (answer_with_rag chain question (world s)) as [[e|r] w1];
    [intros [= <- <-]; by split_and!; [..|left]|].
  destruct (show_comparison wd) eqn:Hcmp.
  - unfold mbind, Script_bind, script_bind, call. simpl.
    destruct (answer_without_rag_stops svc key question w1) as [e ->].
    intros [= <- <-]. by split_and!; [..|left].
  - unfold mbind, Script_bind, script_bind, set_session. simpl.
    intros [= <- <-]. simpl. split_and!; try done. right. by eexists.
Qed.

(** The rest of the script after the upload step, for a processed resume. *)
Lemma rest_keeps wd question s :
  let s' := ((clear_step wd;; ask_step svc key wd question;;
              display_step wd;; history_step) s).2 in
  rag_chain (session s') = rag_chain (session s)
  ∧ resume_processed (session s') = resume_processed (session s)
  ∧ chunk_count (session s') = chunk_count (session s)
  ∧ (qa_history (session s') = qa_history (session s)
     ∨ (qa_history (session s') = [] ∧ clear_button wd = true)
     ∨ ∃ qa, qa_history (session s') = qa_history (session s) ++ [qa]
             ∧ ask_button wd = true ∧ show_comparison wd = false
             ∧ clear_button wd = false).
Proof.
  unfold clear_step. destruct (clear_button wd) eqn:Hclear.
  { simpl. split_and!; try done. right. by left. }
  erewrite script_bind_ok by reflexivity.
  unfold mbind, Script_bind, script_bind.
  destruct (ask_step svc key wd question s) as [[why|[]] s1] eqn:Hstep;
    apply ask_step_keeps in Hstep as Hask; simpl in *.
  { destruct Hask as (? & ? & ? & [?|(qa & ? & ? & ?)]);
      split_and!; try done; [by left|]. right. right. by exists qa. }
  pose proof (display_step_draws wd s1) as [Hd _].
  destruct (display_step wd s1) as [[why|[]] s2]; simpl in *.
  { rewrite Hd. destruct Hask as (? & ? & ? & [?|(qa & ? & ? & ?)]);
      split_and!; try done; [by left|]. right. right. by exists qa. }
  pose proof (history_step_draws s2) as [Hh _].
  rewrite Hh, Hd. destruct Hask as (? & ? & ? & [?|(qa & ? & ? & ?)]);
    split_and!; try done; [by left|]. right. right. by exists qa.
Qed.

(** The whole script from a state with a processed resume. *)
Lemma script_rest_eq wd s (k : Script Vector unit) :
  resume_processed (session s) = true →
  (ss ← get_session;
   if resume_processed ss then
     emit (ChunksCreated (chunk_count ss));;
     suggested_step wd;;
     ss ← get_session;
     let user_question := text_input wd (current_question ss) in
     clear_step wd;;
     ask_step svc key wd user_question;;
     display_step wd;;
     history_step
   else k) s
  = (clear_step wd;;
     ask_step svc key wd (asked wd (current_question (session s)));;
     display_step wd;;
     history_step)
      (MkRun (MkSession (rag_chain (session s)) true
                (chunk_count (session s)) (qa_history (session s))
                (current_answer (session s))
                (pick_question wd (current_question (session s))))
         (world s) (page s ++ [ChunksCreated (chunk_count (session s))])).
Proof.
  intros Hdone. rewrite get_session_bind, Hdone. rewrite emit_bind.
  erewrite script_bind_ok by apply suggested_step_eq.
  rewrite get_session_bind. simpl. by rewrite Hdone.
Qed.

(** The upload step in a session with no processed resume. *)
Lemma upload_step_fresh file s :
  resume_processed (session s) = false →
  upload_step svc key file s
  = match process_uploaded_pdf svc key file (world s) with
    | (inl e, w1) => (inl (Raised e), MkRun (session s) w1 (page s))
    | (inr (chain, count, true, message), w1) =>
        (inr tt,
         MkRun (MkSession chain true count (qa_history (session s))
                  (current_answer (session s)) (current_question (session s)))
           w1 (page s ++ [Success message]))
    | (inr (_, _, false, message), w1) =>
        (inr tt, MkRun (session s) w1 (page s ++ [Error message]))
    end.
Proof.
  intros Hdone. unfold upload_step. rewrite get_session_bind, Hdone.
  unfold mbind, Script_bind, script_bind, call.
  by destruct (process_uploaded_pdf svc key file (world s))
    as [[e|[[[chain count] [|]] message]] w1].
Qed.

(** A run in a session with no processed resume, by the outcome of
    [process_uploaded_pdf]. *)
Lemma run_fresh wd ss w file :
  uploaded_file wd = Some file →
  resume_processed ss = false →
  run svc key wd ss w
  = match process_uploaded_pdf svc key file w with
    | (inl e, w1) => (inl (Raised e), MkRun ss w1 [])
    | (inr (chain, count, true, message), w1) =>
        (clear_step wd;;
         ask_step svc key wd (asked wd (current_question ss));;
         display_step wd;;
         history_step)
          (MkRun (MkSession chain true count (qa_history ss)
                    (current_answer ss)
                    (pick_question wd (current_question ss)))
             w1 [Success message; ChunksCreated count])
    | (inr (_, _, false, message), w1) =>
        (inr tt, MkRun ss w1 [Error message])
    end.
Proof.
  intros Hfile Hdone. unfold run, script. rewrite Hfile.
  pose proof (upload_step_fresh file (MkRun ss w []) Hdone) as Hup.
  simpl in Hup.
  destruct (process_uploaded_pdf svc key file w)
    as [[e|[[[chain count] [|]] message]] w1].
  - by erewrite script_bind_stop by exact Hup.
  - erewrite script_bind_ok by exact Hup.
    by rewrite script_rest_eq by done.
  - erewrite script_bind_ok by exact Hup.
    rewrite get_session_bind. simpl. by rewrite Hdone.
Qed.

(** What a run does to the chain, the processed flag and the chunk count. *)
Lemma run_chain wd ss w :
  let s' := (run svc key wd ss w).2 in
  (rag_chain (session s') = rag_chain ss
   ∧ resume_processed (session s') = resume_processed ss
   ∧ chunk_count (session s') = chunk_count ss)
  ∨ (resume_processed ss = false
     ∧ ∃ file chain count message w1,
         uploaded_file wd = Some file
         ∧ process_uploaded_pdf svc key file w
           = (inr (chain, count, true, message), w1)
         ∧ rag_chain (session s') = chain
         ∧ resume_processed (session s') = true
         ∧ chunk_count (session s') = count).
Proof.
  simpl. destruct (uploaded_file wd) as [file|] eqn:Hfile.
  2:{ left. unfold run, script. by rewrite Hfile. }
  destruct (resume_processed ss) eqn:Hdone.
  - left. rewrite (run_processed _ _ _ _ _ file) by done.
    destruct (rest_keeps wd (asked wd (current_question ss))
                (MkRun (MkSession (rag_chain ss) true (chunk_count ss)
                          (qa_history ss) (current_answer ss)
                          (pick_question wd (current_question ss)))
                   w [ChunksCreated (chunk_count ss)]))
      as (H1 & H2 & H3 & _).
    by rewrite H1, H2, H3.
  - rewrite (run_fresh _ _ _ file) by done.
    destruct (process_uploaded_pdf svc key file w)
      as [[e|[[[chain count] [|]] message]] w1] eqn:Hp;
      [by left| |by left].
    right. split; [done|]. exists file, chain, count, message, w1.
    destruct (rest_keeps wd (asked wd (current_question ss))
                (MkRun (MkSession chain true count
                          (qa_history ss) (current_answer ss)
                          (pick_question wd (current_question ss)))
                   w1 [Success message; ChunksCreated count]))
      as (H1 & H2 & H3 & _).
    by rewrite H1, H2, H3.
Qed.

(** With the flag [True], [process_uploaded_pdf] returns a chain. *)
Lemma process_uploaded_pdf_success_chain file w chain count message w1 :
  process_uploaded_pdf svc key file w
  = (inr (chain, count, true, message), w1) →
  is_Some chain.
Proof.
  rewrite process_uploaded_pdf_eq.
  destruct (pdf_extract svc file) as [e|texts].
  { by destruct (is_Exception (exn_class e)). }
  destruct (create_vector_store _ _ _ _) as [[e|store] w2].
  { by destruct (is_Exception (exn_class e)). }
  destruct (client_init svc _ _) as [e|[]].
  { by destruct (is_Exception (exn_class e)). }
  intros [= <- _ _ _]. by eexists.
Qed.
End session_facts.


(** X18.  In any run of the script, whatever the widgets and whatever
    fails, the history is left as it was, or emptied by the Clear button,
    or extended at its end by exactly one entry, which takes the Get Answer
    button with the comparison off: no entry is ever changed, reordered or
    dropped otherwise. *)
Theorem history_grows_or_clears {Vector : Type} (svc : Services Vector)
    (OPENAI_API_KEY : option str) (wd : Widgets) (ss : SessionState Vector)
    (w : World Vector) :
  qa_history (session (run svc OPENAI_API_KEY wd ss w).2) = qa_history ss
  ∨ (qa_history (session (run svc OPENAI_API_KEY wd ss w).2) = []
     ∧ clear_button wd = true)
  ∨ ∃ qa,
      qa_history (session (run svc OPENAI_API_KEY wd ss w).2)
      = qa_history ss ++ [qa]
      ∧ ask_button wd = true ∧ show_comparison wd = false
      ∧ clear_button wd = false.
Proof.
  destruct (uploaded_file wd) as [file|] eqn:Hfile.
  2:{ left. unfold run, script. by rewrite Hfile. }
  destruct (resume_processed ss) eqn:Hdone.
  - rewrite (run_processed _ _ _ _ _ file) by done.
    by destruct (rest_keeps svc OPENAI_API_KEY wd
                   (asked wd (current_question ss))
                   (MkRun (MkSession (rag_chain ss) true (chunk_count ss)
                             (qa_history ss) (current_answer ss)
                             (pick_question wd (current_question ss)))
                      w [ChunksCreated (chunk_count ss)]))
      as (_ & _ & _ & H).
  - rewrite (run_fresh _ _ _ _ _ file) by done.
    destruct (process_uploaded_pdf svc OPENAI_API_KEY file w)
      as [[e|[[[chain count] [|]] message]] w1]; [by left| |by left].
    by destruct (rest_keeps svc OPENAI_API_KEY wd
                   (asked wd (current_question ss))
                   (MkRun (MkSession chain true count
                             (qa_history ss) (current_answer ss)
                             (pick_question wd (current_question ss)))
                      w1 [Success message; ChunksCreated count]))
      as (_ & _ & _ & H).
Qed.

(** X19.  When processing the uploaded file fails with an exception derived
    from [Exception] at any of its steps, the run draws the error message
    and nothing else, and leaves the session as it was: the resume is not
    marked as processed, so no question can be asked and the next run
    processes the file again. *)
Theorem failed_upload_shows_error {Vector : Type} (svc : Services Vector)
    (OPENAI_API_KEY : option str) (wd : Widgets) (ss : SessionState Vector)
    (w w' : World Vector) (file : bytes) (e : exn) :
  uploaded_file wd = Some file →
  resume_processed ss = false →
  is_Exception (exn_class e) = true →
  (chunks ← load_and_chunk_pdf svc (tmp_name svc (files w));
   vector_store ← create_vector_store svc OPENAI_API_KEY chunks;
   build_rag_chain svc OPENAI_API_KEY vector_store)
    (set_files <[tmp_name svc (files w) := file]> w)
  = (inl e, w') →
  run svc OPENAI_API_KEY wd ss w
  = (inr tt,
     MkRun ss (set_files (delete (tmp_name svc (files w))) w')
       [Error (lit "Error processing PDF: " ++ exn_str e)]).
Proof.
  intros Hfile Hdone He Hfail.
  rewrite (run_fresh _ _ _ _ _ file) by done.
  rewrite process_uploaded_pdf_eq. simpl.
  set (path := tmp_name svc (files w)) in *.
  set (w0 := set_files <[path := file]> w) in *.
  revert Hfail.
  unfold mbind at 1 2, M_bind, bind.
  rewrite (load_and_chunk_pdf_eq svc path w0 file)
    by apply lookup_insert_eq.
  destruct (pdf_extract svc file) as [e1|texts].
  { intros [= <- <-]. by rewrite He. }
  destruct (create_vector_store svc OPENAI_API_KEY (pdf_chunks path texts) w0)
    as [[e1|store] w1].
  { intros [= <- <-]. by rewrite He. }
  unfold build_rag_chain, ChatOpenAI_new.
  unfold mbind, M_bind, bind, get_world, lift, mret, M_ret, ret.
  destruct (client_init svc OPENAI_API_KEY (environ w1)) as [e1|[]]; [|done].
  intros [= <- <-]. by rewrite He.
Qed.

Lemma failed_upload_shows_error_witness :
  run loader_down api_key (typing "What skills are listed?" false resume)
    new_session nothing
  = (inr tt,
     MkRun new_session
       (set_files (delete (tmp_name loader_down (files nothing)))
          (set_files <[tmp_name loader_down (files nothing) := resume]>
             nothing))
       [Error (lit "Error processing PDF: " ++ exn_str unreadable)]).
Proof.
  apply (failed_upload_shows_error loader_down api_key
           (typing "What skills are listed?" false resume) new_session
           nothing
           (set_files <[tmp_name loader_down (files nothing) := resume]>
              nothing)
           resume unreadable); reflexivity.
Defined.

(** X20.  A run changes the chain, the processed flag and the chunk count of
    the session in one way only: in a session with no processed resume, by
    an upload that [process_uploaded_pdf] reports as a success, to the chain
    and the count it returns.  Asking, clearing, a failed upload or an
    exception leave the three as they were. *)
Theorem chain_set_by_first_upload_only {Vector : Type}
    (svc : Services Vector) (OPENAI_API_KEY : option str) (wd : Widgets)
    (ss : SessionState Vector) (w : World Vector) :
  (rag_chain (session (run svc OPENAI_API_KEY wd ss w).2) = rag_chain ss
   ∧ resume_processed (session (run svc OPENAI_API_KEY wd ss w).2)
     = resume_processed ss
   ∧ chunk_count (session (run svc OPENAI_API_KEY wd ss w).2)
     = chunk_count ss)
  ∨ (resume_processed ss = false
     ∧ ∃ file chain count message w1,
         uploaded_file wd = Some file
         ∧ process_uploaded_pdf svc OPENAI_API_KEY file w
           = (inr (chain, count, true, message), w1)
         ∧ rag_chain (session (run svc OPENAI_API_KEY wd ss w).2) = chain
         ∧ resume_processed (session (run svc OPENAI_API_KEY wd ss w).2)
           = true
         ∧ chunk_count (session (run svc OPENAI_API_KEY wd ss w).2)
           = count).
Proof. apply run_chain. Qed.

(** X21.  In a session that starts with the defaults of the script, after
    any sequence of user actions, the processed flag is set only together
    with a chain: the Get Answer button never meets [rag_chain] at
    [None]. *)
Theorem chain_ready_always {Vector : Type} (svc : Services Vector)
    (OPENAI_API_KEY : option str) (actions : list Widgets)
    (w : World Vector) :
  chain_ready (runs svc OPENAI_API_KEY actions new_session w).1.
Proof.
  assert (∀ (ss : SessionState Vector) w0, chain_ready ss →
            chain_ready (runs svc OPENAI_API_KEY actions ss w0).1) as Hall.
  { induction actions as [|wd rest IH]; intros ss w0 Hready; [done|].
    simpl. apply IH.
    destruct (run_chain svc OPENAI_API_KEY wd ss w0)
      as [(H1 & H2 & H3)|(_ & file & chain & n & message & w1 & _ & Hp
                           & H1 & H2 & H3)];
      unfold chain_ready.
    - rewrite H1, H2. exact Hready.
    - rewrite H1. intros _.
      exact (process_uploaded_pdf_success_chain _ _ _ _ _ _ _ _ Hp). }
  by apply Hall.
Qed.
